(** * A shallow embedding of [TuringMachine.py]

    The tape is the pair of the deque [_cells] and the integer [_head];
    Python integers are [Z], the deque is a [list Z], the program table is a
    finite map keyed by [(state, value)] pairs.  Operations that can raise in
    Python ([deque] indexing, [int]) return a [result].  The class methods
    [right], [left], [_move], [read], [write] and [runProgram] and the two
    module functions are embedded; [__str__] is not. *)

From Stdlib Require Import Ascii String.
From stdpp Require Import gmap strings list pretty.

Local Open Scope Z_scope.

(** ** Python exceptions *)

Inductive exn : Set :=
| IndexError
| ValueError.

Inductive result (A : Type) : Type :=
| Ok (a : A)
| Raise (e : exn).

Arguments Ok {A} a.
Arguments Raise {A} e.

Definition bind {A B : Type} (r : result A) (k : A -> result B) : result B :=
  match r with
  | Ok a => k a
  | Raise e => Raise e
  end.

Notation "x <-! r ; k" := (bind r (fun x => k))
  (at level 100, r at next level, right associativity, only parsing).

(** ** Python sequence primitives *)

(** [[x] * k]: a non-positive count gives the empty list. *)
Definition py_repeat {A : Type} (x : A) (k : Z) : list A :=
  replicate (Z.to_nat k) x.

(** [len(l)] as a Python integer. *)
Definition len {A : Type} (l : list A) : Z := Z.of_nat (length l).

(** Index normalisation of [deque.__getitem__] and [deque.__setitem__]: a
    negative index counts from the right end, anything outside
    [-len, len) raises [IndexError]. *)
Definition py_index {A : Type} (l : list A) (i : Z) : result nat :=
  if 0 <=? i then
    if i <? len l then Ok (Z.to_nat i) else Raise IndexError
  else
    if - len l <=? i then Ok (Z.to_nat (len l + i)) else Raise IndexError.

(** ** class TuringMachine *)

Record TuringMachine : Type := mkTM {
  _cells : list Z;
  _head : Z
}.

(** [__init__(self, initTape, initHead, radix)]: both attributes are stored as
    given, [radix] is never looked at. *)
Definition __init__ (initTape : list Z) (initHead : Z) (radix : Z) : TuringMachine :=
  {| _cells := initTape; _head := initHead |}.

(** [_move(self, num)] *)
Definition _move (num : Z) (self : TuringMachine) : TuringMachine :=
  let head := _head self + num in
  if head <? 0 then
    {| _cells := py_repeat 0 (Z.abs head) ++ _cells self; _head := 0 |}
  else if head >=? len (_cells self) then
    {| _cells := _cells self ++ py_repeat 0 (head - len (_cells self) + 1);
       _head := head |}
  else
    {| _cells := _cells self; _head := head |}.

Definition right (num : Z) (self : TuringMachine) : TuringMachine :=
  _move num self.

Definition left (num : Z) (self : TuringMachine) : TuringMachine :=
  _move (- num) self.

(** [read(self)] *)
Definition read (self : TuringMachine) : result Z :=
  i <-! py_index (_cells self) (_head self);
  match _cells self !! i with
  | Some v => Ok v
  | None => Raise IndexError
  end.

(** [write(self, val)] *)
Definition write (val : Z) (self : TuringMachine) : result TuringMachine :=
  i <-! py_index (_cells self) (_head self);
  Ok {| _cells := <[i := val]> (_cells self); _head := _head self |}.

(** The data-model invariant of the tape: the head indexes a materialised
    cell. *)
Definition head_in_bounds (self : TuringMachine) : Prop :=
  0 <= _head self < len (_cells self).

Definition all_zero (l : list Z) : Prop := Forall (fun v => v = 0) l.

(** The contract of a move that asks for head position [newHead] on the tape
    [tm] and leaves the tape [moved]. *)
Definition move_contract (newHead : Z) (tm moved : TuringMachine) : Prop :=
  (newHead < 0 ->
     exists fresh,
       _cells moved = fresh ++ _cells tm /\
       len fresh = Z.abs newHead /\
       all_zero fresh /\
       _head moved = 0) /\
  (newHead >= len (_cells tm) ->
     exists fresh,
       _cells moved = _cells tm ++ fresh /\
       len fresh = newHead - len (_cells tm) + 1 /\
       all_zero fresh /\
       _head moved = newHead /\
       head_in_bounds moved) /\
  (0 <= newHead < len (_cells tm) ->
     _cells moved = _cells tm /\ _head moved = newHead).

(** ** The program table and [runProgram] *)

(** A table value is the 3-tuple [(action, parameter, new state)]; the action
    is the string the interpreter compares with ["R"], ["L"] and ["W"]. *)
Definition entry : Type := string * Z * Z.

Definition action (tup : entry) : string := tup.1.1.
Definition parameter (tup : entry) : Z := tup.1.2.
Definition new_state (tup : entry) : Z := tup.2.

Abbreviation program := (gmap (Z * Z) entry).

(** One element of the debug log: the dict with keys ["state"], ["head"] and
    ["tape"], the last one an immutable copy of the deque. *)
Record snapshot : Type := mkSnapshot {
  snap_state : Z;
  snap_head : Z;
  snap_tape : list Z
}.

Definition take_snapshot (state : Z) (self : TuringMachine) : snapshot :=
  {| snap_state := state; snap_head := _head self; snap_tape := _cells self |}.

(** The [if]/[elif] chain on [tup[0]] in the loop body; a string that is none
    of the three falls through all branches. *)
Definition dispatch (tup : entry) (self : TuringMachine) : result TuringMachine :=
  if String.eqb (action tup) "R" then Ok (right (parameter tup) self)
  else if String.eqb (action tup) "L" then Ok (left (parameter tup) self)
  else if String.eqb (action tup) "W" then write (parameter tup) self
  else Ok self.

(** The machine object together with the local variables of [runProgram].
    [log] is only bound when [debug] is set; it stays empty otherwise. *)
Record frame : Type := mkFrame {
  self : TuringMachine;
  state : Z;
  step : Z;
  log : list snapshot
}.

Inductive completion : Set :=
| Returned
| Raised (e : exn)
| OutOfFuel.

(** The [while] loop.  [fuel] only serves the structural recursion: the guard
    is evaluated as in the source ([read], membership, then the step test), and
    running out of fuel is reported as such.  The second [self.read()] of the
    body returns what the guard just read. *)
Fixpoint loop (program : program) (step_limit : Z) (debug : bool)
    (fuel : nat) (f : frame) : frame * completion :=
  match read (self f) with
  | Raise e => (f, Raised e)
  | Ok v =>
    match program !! (state f, v) with
    | None => (f, Returned)
    | Some tup =>
      if step f <? step_limit then
        match fuel with
        | O => (f, OutOfFuel)
        | S fuel' =>
          match dispatch tup (self f) with
          | Raise e => (f, Raised e)
          | Ok self' =>
            let state' := new_state tup in
            loop program step_limit debug fuel'
              {| self := self';
                 state := state';
                 step := step f + 1;
                 log := if debug
                        then log f ++ [take_snapshot state' self']
                        else log f |}
          end
        end
      else (f, Returned)
    end
  end.

Definition initial_frame (debug : bool) (tm : TuringMachine) : frame :=
  {| self := tm;
     state := 1;
     step := 0;
     log := if debug then [take_snapshot 1 tm] else [] |}.

(** The whole call, keeping the final locals for inspection. *)
Definition run (tm : TuringMachine) (program : program) (step_limit : Z)
    (debug : bool) : frame * completion :=
  loop program step_limit debug (Z.to_nat step_limit) (initial_frame debug tm).

(** What the caller of [runProgram] sees: the mutated machine, and either the
    returned value ([None], or the log under [debug]) or the exception. *)
Inductive outcome (A : Type) : Type :=
| Returns (a : A)
| Raises (e : exn)
| Diverges.

Arguments Returns {A} a.
Arguments Raises {A} e.
Arguments Diverges {A}.

Definition runProgram (tm : TuringMachine) (program : program) (step_limit : Z)
    (debug : bool) : TuringMachine * outcome (option (list snapshot)) :=
  let fc := run tm program step_limit debug in
  (self fc.1,
   match fc.2 with
   | Returned => Returns (if debug then Some (log fc.1) else None)
   | Raised e => Raises e
   | OutOfFuel => Diverges
   end).

(** A configuration is what a transition acts on; [transition] is one
    execution of the loop body, without the step budget. *)
Definition config : Type := TuringMachine * Z.

Definition transition (program : program) (c : config) : result (option config) :=
  v <-! read c.1;
  match program !! (c.2, v) with
  | None => Ok None
  | Some tup =>
    tm' <-! dispatch tup c.1;
    Ok (Some (tm', new_state tup))
  end.

(** [chain program c cs]: the configurations [cs] follow [c] by successive
    transitions. *)
Fixpoint chain (program : program) (c : config) (cs : list config) : Prop :=
  match cs with
  | [] => True
  | c' :: cs' => transition program c = Ok (Some c') /\ chain program c' cs'
  end.

Definition snapshot_of (c : config) : snapshot := take_snapshot c.2 c.1.

(** The configuration reached at the end of such a sequence. *)
Fixpoint chain_end (c : config) (cs : list config) : config :=
  match cs with
  | [] => c
  | c' :: cs' => chain_end c' cs'
  end.

(** The table that never halts on a blank tape. *)
Definition forever_right : program := {[ (1, 0) := ("R"%string, 1, 1) ]}.

(** ** Sequences of tape operations *)

Inductive move : Set :=
| MoveRight (n : Z)
| MoveLeft (n : Z).

Inductive op : Set :=
| OpMove (m : move)
| OpRead
| OpWrite (v : Z).

Definition do_move (m : move) (tm : TuringMachine) : TuringMachine :=
  match m with
  | MoveRight n => right n tm
  | MoveLeft n => left n tm
  end.

Definition do_moves (ms : list move) (tm : TuringMachine) : TuringMachine :=
  foldl (fun t m => do_move m t) tm ms.

(** The signed distance a move asks for. *)
Definition displacement (m : move) : Z :=
  match m with
  | MoveRight n => n
  | MoveLeft n => - n
  end.

Definition net_displacement (ms : list move) : Z :=
  foldr (fun m acc => displacement m + acc) 0 ms.

(** How many cells [_move num] puts in front of the old ones, that is, by how
    much the index of every old cell grows. *)
Definition prepended (num : Z) (tm : TuringMachine) : Z :=
  if _head tm + num <? 0 then Z.abs (_head tm + num) else 0.

Fixpoint origin_shift (ms : list move) (tm : TuringMachine) : Z :=
  match ms with
  | [] => 0
  | m :: ms' => prepended (displacement m) tm + origin_shift ms' (do_move m tm)
  end.

(** An operation returns the machine and, for [read], the value. *)
Definition do_op (o : op) (tm : TuringMachine) : result (TuringMachine * option Z) :=
  match o with
  | OpMove m => Ok (do_move m tm, None)
  | OpRead => v <-! read tm; Ok (tm, Some v)
  | OpWrite v => tm' <-! write v tm; Ok (tm', None)
  end.

Fixpoint do_ops (os : list op) (tm : TuringMachine)
    : result (TuringMachine * list (option Z)) :=
  match os with
  | [] => Ok (tm, [])
  | o :: os' =>
    r <-! do_op o tm;
    rs <-! do_ops os' r.1;
    Ok (rs.1, r.2 :: rs.2)
  end.

(** ** readMinimalProgram *)

(** [r[i]] on a list, for a non-negative literal index. *)
Definition getitem {A : Type} (r : list A) (i : nat) : result A :=
  match r !! i with
  | Some x => Ok x
  | None => Raise IndexError
  end.

Section Parser.

(** Python's builtin [int] on strings; [Raise ValueError] where it rejects
    its argument. *)
Variable int : string -> result Z.

(** The assignment of one loop iteration: the right-hand tuple is evaluated
    before the subscript of the target. *)
Definition instruction (r : list string) : result ((Z * Z) * entry) :=
  r2 <-! getitem r 2;
  let kind := if String.eqb r2 "R" || String.eqb r2 "L" then r2 else "W" in
  let param := if String.eqb r2 "0" then 0 else 1 in
  r3 <-! getitem r 3;
  nxt <-! int r3;
  r0 <-! getitem r 0;
  cur <-! int r0;
  r1 <-! getitem r 1;
  val <-! int r1;
  Ok ((cur, val), (kind, param, nxt)).

(** The [for] loop over the rows the csv reader yields. *)
Fixpoint read_rows (rows : list (list string)) (prog : program) : result program :=
  match rows with
  | [] => Ok prog
  | r :: rows' =>
    if len r =? 0 then read_rows rows' prog
    else
      kv <-! instruction r;
      read_rows rows' (<[kv.1 := kv.2]> prog)
  end.

Definition readMinimalProgram (rows : list (list string)) : result program :=
  read_rows rows ∅.

End Parser.

(** A decimal reading of [int]: an optional sign followed by one or more
    ASCII digits. *)
Definition digit_value (c : ascii) : option Z :=
  let n := Z.of_nat (nat_of_ascii c) in
  if (48 <=? n) && (n <=? 57) then Some (n - 48) else None.

Fixpoint digits_value (acc : Z) (s : string) : result Z :=
  match s with
  | EmptyString => Ok acc
  | String c s' =>
    match digit_value c with
    | Some d => digits_value (10 * acc + d) s'
    | None => Raise ValueError
    end
  end.

Definition unsigned_decimal (s : string) : result Z :=
  match s with
  | EmptyString => Raise ValueError
  | _ => digits_value 0 s
  end.

Definition int_decimal (s : string) : result Z :=
  match s with
  | String "-" s' => z <-! unsigned_decimal s'; Ok (- z)
  | String "+" s' => unsigned_decimal s'
  | _ => unsigned_decimal s
  end.

(** The rows of [csv.reader(txt, delimiter = ' ')] for a text without quote
    characters and carriage returns: one row per line of the file, one field
    per space-separated piece, and the empty row for an empty line. *)
Fixpoint split_on (sep : ascii) (s : string) : list string :=
  match s with
  | EmptyString => [EmptyString]
  | String c s' =>
    if Ascii.eqb c sep then EmptyString :: split_on sep s'
    else
      match split_on sep s' with
      | piece :: pieces => String c piece :: pieces
      | [] => [String c EmptyString]
      end
  end.

(** The lines a file object yields, without their terminators: a final line
    terminator does not start another line. *)
Fixpoint drop_last_empty (pieces : list string) : list string :=
  match pieces with
  | [] => []
  | [EmptyString] => []
  | piece :: pieces' => piece :: drop_last_empty pieces'
  end.

Definition file_lines (text : string) : list string :=
  drop_last_empty (split_on "010" text).

Definition csv_row (line : string) : list string :=
  match line with
  | EmptyString => []
  | _ => split_on " " line
  end.

Definition csv_reader (text : string) : list (list string) :=
  csv_row <$> file_lines text.

(** The text of a file, from its rows: the fields of a row joined by single
    spaces, every row ended by a line feed. *)
Fixpoint join_fields (fields : list string) : string :=
  match fields with
  | [] => EmptyString
  | [field] => field
  | field :: fields' => field +:+ String " " (join_fields fields')
  end.

Fixpoint file_text (rows : list (list string)) : string :=
  match rows with
  | [] => EmptyString
  | r :: rows' => join_fields r +:+ String "010" (file_text rows')
  end.

Fixpoint free_of (c : ascii) (s : string) : Prop :=
  match s with
  | EmptyString => True
  | String a s' => a <> c /\ free_of c s'
  end.

(** A field that reaches the reader as it stands in the file: no separator
    (space), no line terminator (codes 10 and 13), no quote character
    (code 34). *)
Definition plain_field (s : string) : Prop :=
  free_of " " s /\ free_of "010" s /\ free_of "013" s /\ free_of "034" s.

(** A row made of such fields; the row of one empty field is left out, its
    text being that of a blank line. *)
Definition plain_row (r : list string) : Prop :=
  Forall plain_field r /\ r <> [EmptyString].

(** What the format description promises for one instruction line. *)
Inductive token : Set := TokL | TokR | Tok0 | Tok1.

Definition token_text (t : token) : string :=
  match t with
  | TokL => "L"
  | TokR => "R"
  | Tok0 => "0"
  | Tok1 => "1"
  end.

Definition token_entry (t : token) (nxt : Z) : entry :=
  match t with
  | TokL => ("L", 1, nxt)
  | TokR => ("R", 1, nxt)
  | Tok0 => ("W", 0, nxt)
  | Tok1 => ("W", 1, nxt)
  end.

(** A row of the file as the format describes it: blank, or the four fields
    of an instruction. *)
Inductive line : Set :=
| Blank
| Instr (cur val : Z) (t : token) (nxt : Z).

(** The table the format description assigns to a file, line by line; a later
    line for the same key replaces the earlier one. *)
Fixpoint table_of (ls : list line) (prog : program) : program :=
  match ls with
  | [] => prog
  | Blank :: ls' => table_of ls' prog
  | Instr cur val t nxt :: ls' => table_of ls' (<[(cur, val) := token_entry t nxt]> prog)
  end.

(** [row_of int r l]: the csv row [r] is the line [l], its integer fields being
    strings that [int] reads as the given numbers. *)
Definition row_of (int : string -> result Z) (r : list string) (l : line) : Prop :=
  match l with
  | Blank => r = []
  | Instr cur val t nxt =>
    exists r0 r1 r3,
      r = [r0; r1; token_text t; r3] /\
      int r0 = Ok cur /\ int r1 = Ok val /\ int r3 = Ok nxt
  end.

(** ** generateUnaryMachine *)

(** The [for] loop, [tape] being the list under construction. *)
Fixpoint unary_loop (iterable : list Z) (tape : list Z) : list Z :=
  match iterable with
  | [] => tape
  | val :: rest => unary_loop rest ((tape ++ py_repeat 1 (val + 1)) ++ [0])
  end.

(** The constructor is called with its defaults [initHead = 0], [radix = 1]. *)
Definition generateUnaryMachine (iterable : list Z) : TuringMachine :=
  __init__ (unary_loop iterable []) 0 1.

(** The encoding in the words of its description: each value [v] becomes
    [v + 1] ones followed by one zero. *)
Definition unary_block (v : nat) : list Z := replicate (S v) 1 ++ [0].

Fixpoint unary_encoding (vs : list nat) : list Z :=
  match vs with
  | [] => []
  | v :: vs' => unary_block v ++ unary_encoding vs'
  end.

(** ** __str__ *)


Section Str.

(** Python's builtin [str] on the values of the cells. *)
Variable str : Z -> string.




End Str.

(** ** Vocabulary for the further properties *)

(** The head is an index [deque.__getitem__] accepts. *)
Definition head_indexable (tm : TuringMachine) : Prop :=
  - len (_cells tm) <= _head tm < len (_cells tm).

(** The action token as the parser treats it: everything but [R], [L] and [0]
    is treated as [1]. *)
Definition canonical_token (t : string) : string :=
  if String.eqb t "R" || String.eqb t "L" || String.eqb t "0" then t else "1".

(** The part of a row the parser looks at. *)
Definition canonical_row (r : list string) : list string :=
  match r with
  | r0 :: r1 :: t :: r3 :: _ => [r0; r1; canonical_token t; r3]
  | _ => r
  end.

(** A row the parser gets through: blank, or at least four fields with [int]
    accepting the first, second and fourth. *)
Definition row_parses (int : string -> result Z) (r : list string) : Prop :=
  r = [] \/
  exists r0 r1 t r3 rest cur val nxt,
    r = r0 :: r1 :: t :: r3 :: rest /\
    int r0 = Ok cur /\ int r1 = Ok val /\ int r3 = Ok nxt.

Definition sum_Z (l : list Z) : Z := foldr Z.add 0 l.


(** The shape of the entries the parser builds. *)
Definition parsed_entry (e : entry) : Prop :=
  (action e = "R"%string /\ parameter e = 1) \/
  (action e = "L"%string /\ parameter e = 1) \/
  (action e = "W"%string /\ (parameter e = 0 \/ parameter e = 1)).

(** The cells [generateUnaryMachine] makes of one value. *)
Definition unary_cells (val : Z) : list Z := py_repeat 1 (val + 1) ++ [0].

(** ** Basic facts about the primitives *)

Lemma len_app {A : Type} (l1 l2 : list A) : len (l1 ++ l2) = len l1 + len l2.
Proof. unfold len. rewrite length_app. lia. Qed.

Lemma len_py_repeat {A : Type} (x : A) (k : Z) : len (py_repeat x k) = Z.max 0 k.
Proof. unfold len, py_repeat. rewrite length_replicate. lia. Qed.

Lemma len_nonneg {A : Type} (l : list A) : 0 <= len l.
Proof. unfold len. lia. Qed.

Lemma all_zero_py_repeat (k : Z) : all_zero (py_repeat 0 k).
Proof.
  unfold all_zero, py_repeat. apply Forall_forall.
  intros v Hv. apply elem_of_replicate in Hv. tauto.
Qed.

Lemma _move_cases (num : Z) (tm : TuringMachine) :
  let head := _head tm + num in
  (head < 0 /\
   _move num tm =
     {| _cells := py_repeat 0 (Z.abs head) ++ _cells tm; _head := 0 |}) \/
  (len (_cells tm) <= head /\
   _move num tm =
     {| _cells := _cells tm ++ py_repeat 0 (head - len (_cells tm) + 1);
        _head := head |}) \/
  (0 <= head < len (_cells tm) /\
   _move num tm = {| _cells := _cells tm; _head := head |}).
Proof.
  intros head. unfold _move. fold head.
  pose proof (len_nonneg (_cells tm)) as Hlen.
  destruct (head <? 0) eqn:Hneg.
  - left. split; [lia | reflexivity].
  - destruct (head >=? len (_cells tm)) eqn:Hge.
    + right; left. split; [lia | reflexivity].
    + right; right. split; [lia | reflexivity].
Qed.

(** Whatever the tape was, the head is in bounds after a move. *)
Lemma _move_in_bounds (num : Z) (tm : TuringMachine) :
  head_in_bounds (_move num tm).
Proof.
  pose proof (len_nonneg (_cells tm)) as Hlen.
  destruct (_move_cases num tm) as [[H ->] | [[H ->] | [H ->]]];
    unfold head_in_bounds; simpl in *.
  - rewrite len_app, len_py_repeat. lia.
  - rewrite len_app, len_py_repeat. lia.
  - lia.
Qed.

Lemma _move_contract (num : Z) (tm : TuringMachine) :
  move_contract (_head tm + num) tm (_move num tm).
Proof.
  pose proof (len_nonneg (_cells tm)) as Hlen.
  destruct (_move_cases num tm) as [[H ->] | [[H ->] | [H ->]]]; simpl in H;
    repeat split; simpl; try lia; intros H'; try lia.
  - exists (py_repeat 0 (Z.abs (_head tm + num))).
    rewrite len_py_repeat. repeat split; auto using all_zero_py_repeat; lia.
  - exists (py_repeat 0 (_head tm + num - len (_cells tm) + 1)).
    rewrite len_py_repeat.
    repeat split; simpl; auto using all_zero_py_repeat; try lia.
    rewrite len_app, len_py_repeat. lia.
Qed.

(** ** Reading and writing under the head *)

Lemma py_index_in_bounds {A : Type} (l : list A) (i : Z) :
  0 <= i < len l -> py_index l i = Ok (Z.to_nat i).
Proof.
  intros [Hlo Hhi]. unfold py_index.
  destruct (Z.leb_spec 0 i); [| lia].
  destruct (Z.ltb_spec i (len l)); [reflexivity | lia].
Qed.

(** [py_index] answers with a position of the list, or raises. *)
Lemma py_index_Ok {A : Type} (l : list A) (i : Z) (k : nat) :
  py_index l i = Ok k -> (k < length l)%nat.
Proof.
  unfold py_index, len.
  destruct (Z.leb_spec 0 i).
  - destruct (Z.ltb_spec i (Z.of_nat (length l))); [| discriminate].
    intros [= <-]. lia.
  - destruct (Z.leb_spec (- Z.of_nat (length l)) i); [| discriminate].
    intros [= <-]. lia.
Qed.

Lemma read_in_bounds (tm : TuringMachine) :
  head_in_bounds tm ->
  exists v, read tm = Ok v /\ _cells tm !! Z.to_nat (_head tm) = Some v.
Proof.
  intros Hb. unfold read. rewrite py_index_in_bounds by exact Hb. simpl.
  destruct (_cells tm !! Z.to_nat (_head tm)) as [v|] eqn:Hv.
  - exists v. split; reflexivity.
  - apply lookup_ge_None in Hv. unfold head_in_bounds, len in Hb. lia.
Qed.

Lemma write_in_bounds (val : Z) (tm : TuringMachine) :
  head_in_bounds tm ->
  write val tm =
    Ok {| _cells := <[Z.to_nat (_head tm) := val]> (_cells tm);
          _head := _head tm |}.
Proof.
  intros Hb. unfold write. rewrite py_index_in_bounds by exact Hb. reflexivity.
Qed.

(** A write that does not raise keeps the head and the length. *)
Lemma write_Ok (val : Z) (tm tm' : TuringMachine) :
  write val tm = Ok tm' ->
  _head tm' = _head tm /\ len (_cells tm') = len (_cells tm).
Proof.
  unfold write. destruct (py_index (_cells tm) (_head tm)); simpl; [| discriminate].
  intros [= <-]. simpl. unfold len. rewrite length_insert. split; reflexivity.
Qed.

(** A read that succeeds is followed by a write that succeeds: both index the
    deque with the same head. *)
Lemma write_after_read (val v : Z) (tm : TuringMachine) :
  read tm = Ok v -> exists tm', write val tm = Ok tm'.
Proof.
  unfold read, write.
  destruct (py_index (_cells tm) (_head tm)); simpl; [| discriminate].
  intros _. eexists. reflexivity.
Qed.

Lemma write_preserves_bounds (val : Z) (tm tm' : TuringMachine) :
  head_in_bounds tm -> write val tm = Ok tm' -> head_in_bounds tm'.
Proof.
  intros Hb Hw. apply write_Ok in Hw as [Hh Hl].
  unfold head_in_bounds in *. rewrite Hh, Hl. exact Hb.
Qed.

Lemma do_move_in_bounds (m : move) (tm : TuringMachine) :
  head_in_bounds (do_move m tm).
Proof. destruct m; apply _move_in_bounds. Qed.

Lemma do_op_in_bounds (o : op) (tm : TuringMachine) :
  head_in_bounds tm ->
  exists tm' r, do_op o tm = Ok (tm', r) /\ head_in_bounds tm'.
Proof.
  intros Hb. destruct o as [m| |v]; simpl.
  - eauto using do_move_in_bounds.
  - destruct (read_in_bounds tm Hb) as (v & -> & _). simpl. eauto.
  - rewrite write_in_bounds by exact Hb. simpl.
    eexists _, _. split; [reflexivity |].
    eapply write_preserves_bounds; [exact Hb | apply write_in_bounds, Hb].
Qed.

Lemma do_ops_in_bounds (os : list op) (tm : TuringMachine) :
  head_in_bounds tm ->
  exists tm' rs, do_ops os tm = Ok (tm', rs) /\ head_in_bounds tm'.
Proof.
  revert tm. induction os as [|o os IH]; intros tm Hb; simpl.
  - eauto.
  - destruct (do_op_in_bounds o tm Hb) as (tm1 & r & -> & Hb1). simpl.
    destruct (IH tm1 Hb1) as (tm2 & rs & -> & Hb2). simpl. eauto.
Qed.

(** ** Moves keep the old cells *)

Lemma py_repeat_add {A : Type} (x : A) (a b : Z) :
  0 <= a -> 0 <= b -> py_repeat x (a + b) = py_repeat x a ++ py_repeat x b.
Proof.
  intros Ha Hb. unfold py_repeat.
  rewrite Z2Nat.inj_add by assumption. apply replicate_add.
Qed.

Lemma prepended_nonneg (num : Z) (tm : TuringMachine) : 0 <= prepended num tm.
Proof. unfold prepended. destruct (_head tm + num <? 0); lia. Qed.

(** One move: the old cells survive between the zeros put in front and the
    zeros put behind, and the head index moves by [num], corrected by the
    number of cells put in front. *)
Lemma _move_shape (num : Z) (tm : TuringMachine) :
  exists behind,
    _cells (_move num tm) =
      py_repeat 0 (prepended num tm) ++ _cells tm ++ behind /\
    all_zero behind /\
    _head (_move num tm) = _head tm + num + prepended num tm.
Proof.
  unfold prepended.
  destruct (_move_cases num tm) as [[H ->] | [[H ->] | [H ->]]]; simpl in *.
  - destruct (Z.ltb_spec (_head tm + num) 0); [| lia].
    exists []. rewrite app_nil_r. repeat split; [constructor | lia].
  - pose proof (len_nonneg (_cells tm)).
    destruct (Z.ltb_spec (_head tm + num) 0); [lia |].
    eexists. repeat split; [apply all_zero_py_repeat | lia].
  - destruct (Z.ltb_spec (_head tm + num) 0); [lia |].
    exists []. rewrite app_nil_r. repeat split; [constructor | lia].
Qed.

Lemma do_move_shape (m : move) (tm : TuringMachine) :
  exists behind,
    _cells (do_move m tm) =
      py_repeat 0 (prepended (displacement m) tm) ++ _cells tm ++ behind /\
    all_zero behind /\
    _head (do_move m tm) =
      _head tm + displacement m + prepended (displacement m) tm.
Proof. destruct m; apply _move_shape. Qed.

Lemma origin_shift_nonneg (ms : list move) (tm : TuringMachine) :
  0 <= origin_shift ms tm.
Proof.
  revert tm. induction ms as [|m ms IH]; intros tm; simpl; [lia |].
  pose proof (prepended_nonneg (displacement m) tm). pose proof (IH (do_move m tm)).
  lia.
Qed.

(** A sequence of moves: the same, with the cells put in front summed up in
    [origin_shift] and the requested distances in [net_displacement]. *)
Lemma do_moves_shape (ms : list move) (tm : TuringMachine) :
  exists behind,
    _cells (do_moves ms tm) =
      py_repeat 0 (origin_shift ms tm) ++ _cells tm ++ behind /\
    all_zero behind /\
    _head (do_moves ms tm) =
      _head tm + net_displacement ms + origin_shift ms tm.
Proof.
  revert tm. induction ms as [|m ms IH]; intros tm; simpl.
  - exists []. rewrite app_nil_r. repeat split; [constructor | lia].
  - destruct (do_move_shape m tm) as (b1 & Hc1 & Hz1 & Hh1).
    destruct (IH (do_move m tm)) as (b2 & Hc2 & Hz2 & Hh2).
    exists (b1 ++ b2). unfold do_moves in *. simpl. repeat split.
    + rewrite Hc2, Hc1.
      rewrite (Z.add_comm (prepended _ _)).
      rewrite py_repeat_add
        by auto using origin_shift_nonneg, prepended_nonneg.
      rewrite <- !app_assoc. reflexivity.
    + apply Forall_app. split; assumption.
    + rewrite Hh2, Hh1. lia.
Qed.

(** The head is over the cell it started from exactly when the requested
    distances cancel. *)
Lemma do_moves_same_cell (ms : list move) (tm : TuringMachine) :
  _head (do_moves ms tm) = _head tm + origin_shift ms tm <->
  net_displacement ms = 0.
Proof.
  destruct (do_moves_shape ms tm) as (_ & _ & _ & ->). lia.
Qed.

Lemma do_moves_in_bounds (ms : list move) (tm : TuringMachine) :
  head_in_bounds tm -> head_in_bounds (do_moves ms tm).
Proof.
  revert tm. induction ms as [|m ms IH]; intros tm Hb; [exact Hb |].
  apply (IH (do_move m tm)), do_move_in_bounds.
Qed.

(** Reading after moves that cancel gives the cell the head started on. *)
Lemma read_do_moves (ms : list move) (tm : TuringMachine) (v : Z) :
  head_in_bounds tm ->
  _cells tm !! Z.to_nat (_head tm) = Some v ->
  net_displacement ms = 0 ->
  read (do_moves ms tm) = Ok v.
Proof.
  intros Hb Hv Hnet.
  pose proof (do_moves_in_bounds ms tm Hb) as Hb'.
  destruct (read_in_bounds _ Hb') as (w & -> & Hw). f_equal.
  destruct (do_moves_shape ms tm) as (behind & Hc & _ & Hh).
  pose proof (origin_shift_nonneg ms tm) as Hs.
  rewrite Hc, Hh, Hnet in Hw.
  set (front := py_repeat 0 (origin_shift ms tm)) in *.
  assert (length front = Z.to_nat (origin_shift ms tm)) as Hfront
    by apply length_replicate.
  unfold head_in_bounds, len in Hb.
  replace (Z.to_nat (_head tm + 0 + origin_shift ms tm))
    with (length front + Z.to_nat (_head tm))%nat in Hw by lia.
  rewrite lookup_app_r in Hw by lia.
  replace (length front + Z.to_nat (_head tm) - length front)%nat
    with (Z.to_nat (_head tm)) in Hw by lia.
  rewrite lookup_app_l in Hw by lia.
  congruence.
Qed.

(** ** Claim C1: the move contract *)

(** C1.  For every tape and every integer [n] (in particular every
    non-negative one), [right n] and [left n] are total and meet the move
    contract for the requested head position [_head + n], respectively
    [_head - n]: a negative position prepends exactly [abs newHead] cells, all
    zero, and resets the head to 0; a position at or beyond the length appends
    exactly [newHead - length + 1] cells, all zero, and the head becomes a
    valid index; a position inside the window changes no cell.  Over any
    sequence of moves the cells of the tape are kept, in place, between the
    new cells, which all hold 0, and the head ends inside the window. *)
Theorem C1_move_contract (tm : TuringMachine) (n : Z) :
  move_contract (_head tm + n) tm (right n tm) /\
  move_contract (_head tm - n) tm (left n tm) /\
  (forall ms : list move,
     exists front behind,
       _cells (do_moves ms tm) = front ++ _cells tm ++ behind /\
       all_zero front /\
       all_zero behind /\
       len front = origin_shift ms tm /\
       (ms <> [] -> head_in_bounds (do_moves ms tm))).
Proof.
  split; [| split].
  - apply _move_contract.
  - unfold left. replace (_head tm - n) with (_head tm + - n) by lia.
    apply _move_contract.
  - intros ms. destruct (do_moves_shape ms tm) as (behind & Hc & Hz & _).
    pose proof (origin_shift_nonneg ms tm) as Hs.
    exists (py_repeat 0 (origin_shift ms tm)), behind.
    split; [exact Hc |]. split; [apply all_zero_py_repeat |].
    split; [exact Hz |]. split; [rewrite len_py_repeat; lia |].
    destruct ms as [|m ms]; [congruence |]. intros _.
    apply (do_moves_in_bounds ms (do_move m tm)), do_move_in_bounds.
Qed.

Lemma C1_move_contract_witness :
  exists fresh,
    _cells (left 3 (__init__ [5; 6] 1 1)) = fresh ++ [5; 6] /\
    len fresh = 2 /\
    all_zero fresh /\
    _head (left 3 (__init__ [5; 6] 1 1)) = 0.
Proof.
  destruct (C1_move_contract (__init__ [5; 6] 1 1) 3) as (_ & (Hneg & _) & _).
  apply Hneg. simpl. lia.
Defined.

(** ** Claim C5: the head-bounds invariant *)

(** C5, as stated, fails at construction: [__init__] stores any head offset
    unchecked, so the tape [(0,)] with head offset 5 has its head outside
    [[0, 1)]. *)
Lemma C5_unchecked_constructor : ~ head_in_bounds (__init__ [0] 5 1).
Proof. unfold head_in_bounds. simpl. unfold len. simpl. lia. Qed.

(** With such a head [read] and [write] raise; the same holds for the empty
    tape that [generateUnaryMachine] builds from the empty sequence. *)
Example head_beyond_window_raises :
  read (__init__ [0] 5 1) = Raise IndexError /\
  write 1 (__init__ [0] 5 1) = Raise IndexError /\
  read (generateUnaryMachine []) = Raise IndexError.
Proof. repeat split; reflexivity. Qed.

(** C5, amended.  Whatever the initial tape and head offset, the head index
    satisfies [0 <= head < len cells] after every move.  For every tape
    created with an initial head offset inside the initial window,
    [0 <= initHead < len initTape], it does so after construction, no
    operation of any sequence of moves, reads and writes raises, and it does
    so after the whole sequence (hence after each of its prefixes). *)
Theorem C5_head_in_bounds (initTape : list Z) (initHead radix : Z) (os : list op) :
  (forall m : move, head_in_bounds (do_move m (__init__ initTape initHead radix))) /\
  (0 <= initHead < len initTape ->
   head_in_bounds (__init__ initTape initHead radix) /\
   exists tm' rs,
     do_ops os (__init__ initTape initHead radix) = Ok (tm', rs) /\
     head_in_bounds tm').
Proof.
  split; [intros m; apply do_move_in_bounds |].
  intros Hb.
  assert (head_in_bounds (__init__ initTape initHead radix)) as Hb0 by exact Hb.
  split; [exact Hb0 |]. apply do_ops_in_bounds, Hb0.
Qed.

Lemma C5_head_in_bounds_witness :
  0 <= 1 < len [7; 0; 3] /\
  head_in_bounds (__init__ [7; 0; 3] 1 2) /\
  exists tm' rs,
    do_ops [OpMove (MoveLeft 4); OpWrite 9; OpRead; OpMove (MoveRight 9)]
      (__init__ [7; 0; 3] 1 2) = Ok (tm', rs) /\
    head_in_bounds tm'.
Proof.
  assert (0 <= 1 < len [7; 0; 3]) as H by (unfold len; simpl; lia).
  split; [exact H |].
  exact (proj2 (C5_head_in_bounds [7; 0; 3] 1 2
                  [OpMove (MoveLeft 4); OpWrite 9; OpRead; OpMove (MoveRight 9)])
           H).
Defined.

(** ** Claim C6: read/write round trip *)

(** C6.  On every tape (head inside the window) and for every value [x]:
    [write x] succeeds and an immediate [read] returns [x]; the write keeps the
    head and the length and changes no cell other than the one under the
    head; and after every sequence of moves that brings the head back to the
    cell it started from, that is, whose distances cancel, [read] still returns
    [x], the cells of the tape at the time of the write all being kept between
    the zero cells the moves added. *)
Theorem C6_read_write_round_trip (tm : TuringMachine) (x : Z) :
  head_in_bounds tm ->
  exists tm1,
    write x tm = Ok tm1 /\
    read tm1 = Ok x /\
    _head tm1 = _head tm /\
    length (_cells tm1) = length (_cells tm) /\
    (forall i : nat,
       Z.of_nat i <> _head tm -> _cells tm1 !! i = _cells tm !! i) /\
    (forall ms : list move,
       _head (do_moves ms tm1) = _head tm1 + origin_shift ms tm1 <->
       net_displacement ms = 0) /\
    (forall ms : list move,
       net_displacement ms = 0 ->
       read (do_moves ms tm1) = Ok x /\
       exists behind,
         _cells (do_moves ms tm1) =
           py_repeat 0 (origin_shift ms tm1) ++ _cells tm1 ++ behind /\
         all_zero behind).
Proof.
  intros Hb.
  set (tm1 := {| _cells := <[Z.to_nat (_head tm) := x]> (_cells tm);
                 _head := _head tm |}).
  assert (write x tm = Ok tm1) as Hw by (apply write_in_bounds, Hb).
  assert (head_in_bounds tm1) as Hb1 by (eapply write_preserves_bounds; eauto).
  assert (_cells tm1 !! Z.to_nat (_head tm1) = Some x) as Hx.
  { simpl. apply list_lookup_insert_eq. unfold head_in_bounds, len in Hb. lia. }
  exists tm1. split; [exact Hw |]. split.
  { destruct (read_in_bounds tm1 Hb1) as (v & -> & Hv). congruence. }
  split; [reflexivity |]. split; [apply length_insert |]. split.
  { intros i Hi. simpl. apply list_lookup_insert_ne.
    unfold head_in_bounds in Hb. lia. }
  split; [intros ms; apply do_moves_same_cell |].
  intros ms Hnet. split.
  - apply read_do_moves; assumption.
  - destruct (do_moves_shape ms tm1) as (behind & Hc & Hz & _). eauto.
Qed.

Lemma C6_read_write_round_trip_witness :
  head_in_bounds (__init__ [7; 8; 9] 0 1) /\
  exists tm1,
    write 5 (__init__ [7; 8; 9] 0 1) = Ok tm1 /\
    read tm1 = Ok 5 /\
    read (do_moves [MoveLeft 2; MoveRight 6; MoveLeft 4] tm1) = Ok 5.
Proof.
  assert (head_in_bounds (__init__ [7; 8; 9] 0 1)) as Hb
    by (unfold head_in_bounds, len; simpl; lia).
  split; [exact Hb |].
  destruct (C6_read_write_round_trip (__init__ [7; 8; 9] 0 1) 5 Hb)
    as (tm1 & Hw & Hr & _ & _ & _ & _ & Hms).
  exists tm1. split; [exact Hw |]. split; [exact Hr |].
  apply (Hms [MoveLeft 2; MoveRight 6; MoveLeft 4]). reflexivity.
Defined.

(** ** Claim C9: the radix argument *)

(** C9.  For every initial tape and head offset and any two radix values, the
    constructed machines are equal, with the cells and the head as given;
    hence every sequence of tape operations and every program run gives the
    same result on both.  No cell value is checked against the radix: the
    constructor keeps the cells it is given, and a write under a head inside
    the window stores any value. *)
Theorem C9_radix_noninterference (initTape : list Z) (initHead r1 r2 : Z) :
  __init__ initTape initHead r1 = __init__ initTape initHead r2 /\
  _cells (__init__ initTape initHead r1) = initTape /\
  _head (__init__ initTape initHead r1) = initHead /\
  (forall os : list op,
     do_ops os (__init__ initTape initHead r1) =
     do_ops os (__init__ initTape initHead r2)) /\
  (forall (program : program) (step_limit : Z) (debug : bool),
     runProgram (__init__ initTape initHead r1) program step_limit debug =
     runProgram (__init__ initTape initHead r2) program step_limit debug) /\
  (forall val : Z,
     0 <= initHead < len initTape ->
     write val (__init__ initTape initHead r1) =
       Ok {| _cells := <[Z.to_nat initHead := val]> initTape;
             _head := initHead |}).
Proof.
  repeat split; try reflexivity.
  intros val Hb. apply (write_in_bounds val (__init__ initTape initHead r1)), Hb.
Qed.

Lemma C9_radix_noninterference_witness :
  write 7 (__init__ [0; 1] 1 2) = Ok {| _cells := [0; 7]; _head := 1 |} /\
  __init__ [0; 1] 1 2 = __init__ [0; 1] 1 10.
Proof.
  destruct (C9_radix_noninterference [0; 1] 1 2 10) as (Heq & _ & _ & _ & _ & Hw).
  split; [| exact Heq].
  apply (Hw 7). unfold len. simpl. lia.
Defined.

(** ** The interpreter loop *)

Section Loop.

Variable program : program.
Variable step_limit : Z.
Variable debug : bool.

Lemma loop_unfold (fuel : nat) (f : frame) :
  loop program step_limit debug fuel f =
    match read (self f) with
    | Raise e => (f, Raised e)
    | Ok v =>
      match program !! (state f, v) with
      | None => (f, Returned)
      | Some tup =>
        if step f <? step_limit then
          match fuel with
          | O => (f, OutOfFuel)
          | S fuel' =>
            match dispatch tup (self f) with
            | Raise e => (f, Raised e)
            | Ok tm' =>
              loop program step_limit debug fuel'
                {| self := tm';
                   state := new_state tup;
                   step := step f + 1;
                   log := if debug
                          then log f ++ [take_snapshot (new_state tup) tm']
                          else log f |}
            end
          end
        else (f, Returned)
      end
    end.
Proof. destruct fuel; reflexivity. Qed.

(** A lookup miss stops the loop where it stands, and normally. *)
Lemma loop_miss (fuel : nat) (f : frame) (v : Z) :
  read (self f) = Ok v ->
  program !! (state f, v) = None ->
  loop program step_limit debug fuel f = (f, Returned).
Proof. intros Hr Hp. rewrite loop_unfold, Hr, Hp. reflexivity. Qed.

(** An exhausted budget stops the loop as well. *)
Lemma loop_budget (fuel : nat) (f : frame) (v : Z) :
  read (self f) = Ok v ->
  step_limit <= step f ->
  loop program step_limit debug fuel f = (f, Returned).
Proof.
  intros Hr Hs. rewrite loop_unfold, Hr.
  destruct (program !! (state f, v)); [| reflexivity].
  destruct (Z.ltb_spec (step f) step_limit); [lia | reflexivity].
Qed.

(** One full iteration. *)
Lemma loop_iterate (fuel : nat) (f : frame) (v : Z) (tup : entry)
    (tm' : TuringMachine) :
  read (self f) = Ok v ->
  program !! (state f, v) = Some tup ->
  step f < step_limit ->
  dispatch tup (self f) = Ok tm' ->
  loop program step_limit debug (S fuel) f =
    loop program step_limit debug fuel
      {| self := tm';
         state := new_state tup;
         step := step f + 1;
         log := if debug
                then log f ++ [take_snapshot (new_state tup) tm']
                else log f |}.
Proof.
  intros Hr Hp Hs Hd. rewrite loop_unfold, Hr, Hp, Hd.
  destruct (Z.ltb_spec (step f) step_limit); [reflexivity | lia].
Qed.

(** The loop is a chain of transitions: the final frame holds the end of
    the chain, the counter has grown by its length, and under [debug] the
    log has grown by its snapshots. *)
Lemma loop_chain (fuel : nat) (f f' : frame) (c : completion) :
  loop program step_limit debug fuel f = (f', c) ->
  exists cs,
    chain program (self f, state f) cs /\
    chain_end (self f, state f) cs = (self f', state f') /\
    step f' = step f + len cs /\
    log f' = log f ++ (if debug then snapshot_of <$> cs else []).
Proof.
  assert (forall g : frame, exists cs,
            chain program (self g, state g) cs /\
            chain_end (self g, state g) cs = (self g, state g) /\
            step g = step g + len cs /\
            log g = log g ++ (if debug then snapshot_of <$> cs else []))
    as Hstop.
  { intros g. exists []. simpl. unfold len. simpl.
    destruct debug; rewrite app_nil_r; repeat split; lia. }
  revert f. induction fuel as [|fuel IH]; intros f; rewrite loop_unfold;
    destruct (read (self f)) as [v|e] eqn:Hr;
    try (intros [= <- <-]; apply Hstop);
    destruct (program !! (state f, v)) as [tup|] eqn:Hp;
    try (intros [= <- <-]; apply Hstop);
    destruct (step f <? step_limit) eqn:Hs;
    try (intros [= <- <-]; apply Hstop).
  destruct (dispatch tup (self f)) as [tm'|e] eqn:Hd;
    try (intros [= <- <-]; apply Hstop).
  intros Hl. apply IH in Hl as (cs & Hch & Hend & Hst & Hlog). simpl in *.
  exists ((tm', new_state tup) :: cs). simpl. repeat split.
  - unfold transition. simpl. rewrite Hr. simpl. rewrite Hp, Hd. reflexivity.
  - exact Hch.
  - exact Hend.
  - rewrite Hst. unfold len. simpl. lia.
  - rewrite Hlog. destruct debug; simpl.
    + rewrite <- app_assoc. reflexivity.
    + rewrite !app_nil_r. reflexivity.
Qed.

(** The counter never passes the limit it started below. *)
Lemma loop_step_bound (fuel : nat) (f : frame) :
  step (loop program step_limit debug fuel f).1 <= Z.max (step f) step_limit.
Proof.
  revert f. induction fuel as [|fuel IH]; intros f; rewrite loop_unfold;
    destruct (read (self f)) as [v|e]; simpl; try lia;
    destruct (program !! (state f, v)) as [tup|]; simpl; try lia;
    destruct (Z.ltb_spec (step f) step_limit); simpl; try lia.
  destruct (dispatch tup (self f)) as [tm'|e]; simpl; try lia.
  etransitivity; [apply IH |]. simpl. lia.
Qed.

(** Fuel for the remaining budget is enough. *)
Lemma loop_fuel (fuel : nat) (f : frame) :
  (Z.to_nat (step_limit - step f) <= fuel)%nat ->
  (loop program step_limit debug fuel f).2 <> OutOfFuel.
Proof.
  revert f. induction fuel as [|fuel IH]; intros f Hfuel; rewrite loop_unfold;
    destruct (read (self f)) as [v|e]; simpl; try discriminate;
    destruct (program !! (state f, v)) as [tup|]; simpl; try discriminate;
    destruct (Z.ltb_spec (step f) step_limit); simpl; try discriminate;
    try lia.
  destruct (dispatch tup (self f)) as [tm'|e]; simpl; try discriminate.
  apply IH. simpl. lia.
Qed.

(** The branches of the loop body keep the head inside the window and do
    not raise there. *)
Lemma dispatch_in_bounds (tup : entry) (tm : TuringMachine) :
  head_in_bounds tm ->
  exists tm', dispatch tup tm = Ok tm' /\ head_in_bounds tm'.
Proof.
  intros Hb. unfold dispatch.
  destruct (String.eqb (action tup) "R");
    [eexists; split; [reflexivity | apply _move_in_bounds] |].
  destruct (String.eqb (action tup) "L");
    [eexists; split; [reflexivity | apply _move_in_bounds] |].
  destruct (String.eqb (action tup) "W"); [| eauto].
  rewrite write_in_bounds by exact Hb.
  eexists; split; [reflexivity |].
  eapply write_preserves_bounds; [exact Hb | apply write_in_bounds, Hb].
Qed.

(** Started with the head inside the window, the loop does not raise. *)
Lemma loop_no_raise (fuel : nat) (f : frame) (e : exn) :
  head_in_bounds (self f) ->
  (loop program step_limit debug fuel f).2 <> Raised e.
Proof.
  revert f. induction fuel as [|fuel IH]; intros f Hb; rewrite loop_unfold;
    destruct (read_in_bounds _ Hb) as (v & -> & _);
    destruct (program !! (state f, v)) as [tup|]; simpl; try discriminate;
    destruct (step f <? step_limit); simpl; try discriminate.
  destruct (dispatch_in_bounds tup _ Hb) as (tm' & -> & Hb').
  apply IH. exact Hb'.
Qed.

End Loop.

(** [run] always comes back: with a result or an exception, never for lack of
    fuel. *)
Lemma run_total (tm : TuringMachine) (program : program) (step_limit : Z)
    (debug : bool) :
  (run tm program step_limit debug).2 <> OutOfFuel.
Proof. unfold run. apply loop_fuel. simpl. lia. Qed.

Lemma run_in_bounds (tm : TuringMachine) (program : program) (step_limit : Z)
    (debug : bool) :
  head_in_bounds tm -> (run tm program step_limit debug).2 = Returned.
Proof.
  intros Hb.
  pose proof (run_total tm program step_limit debug) as Hfuel.
  pose proof (fun e => loop_no_raise program step_limit debug
                         (Z.to_nat step_limit) (initial_frame debug tm) e Hb)
    as Hraise.
  fold (run tm program step_limit debug) in Hraise.
  destruct (run tm program step_limit debug).2 as [|e|];
    [reflexivity | destruct (Hraise e eq_refl) | destruct (Hfuel eq_refl)].
Qed.

(** ** The interpreter on small inputs *)

(** Write a one, step right onto a fresh cell, stop for want of an entry. *)
Example run_write_then_right :
  runProgram (__init__ [0] 0 1)
    (<[(1, 0) := ("W"%string, 1, 1)]> {[ (1, 1) := ("R"%string, 1, 2) ]}) 10 true =
    ({| _cells := [1; 0]; _head := 1 |},
     Returns (Some [ {| snap_state := 1; snap_head := 0; snap_tape := [0] |};
                     {| snap_state := 1; snap_head := 0; snap_tape := [1] |};
                     {| snap_state := 2; snap_head := 1; snap_tape := [1; 0] |} ])).
Proof. reflexivity. Qed.

(** A head beyond the window makes the first [read] raise. *)
Example run_head_beyond_window :
  runProgram (__init__ [0] 5 1) forever_right 10 false =
    (__init__ [0] 5 1, Raises IndexError).
Proof. reflexivity. Qed.

(** A negative head inside [-len, 0) reads from the right end; the first move
    brings it into the window. *)
Example run_negative_head :
  runProgram (__init__ [7; 8; 0] (-1) 1) forever_right 3 false =
    ({| _cells := [7; 8; 0]; _head := 0 |}, Returns None).
Proof. reflexivity. Qed.

(** ** Claim C2: halting on a missing transition *)

(** C2.  For every tape whose cell under the head reads [v] and every table
    without the key [(1, v)], the run performs no transition, leaves cells and
    head as they were and returns normally (the one-snapshot log under
    [debug], no value otherwise); and wherever the loop stands, with any state
    and any tape, a pair [(state, value)] missing from the table makes it stop
    there and return normally instead of raising. *)
Theorem C2_halt_on_missing_transition (tm : TuringMachine) (program : program)
    (step_limit : Z) (debug : bool) (v : Z) :
  read tm = Ok v ->
  program !! (1, v) = None ->
  run tm program step_limit debug = (initial_frame debug tm, Returned) /\
  step (run tm program step_limit debug).1 = 0 /\
  runProgram tm program step_limit debug =
    (tm, Returns (if debug then Some [take_snapshot 1 tm] else None)) /\
  (forall (fuel : nat) (f : frame) (w : Z),
     read (self f) = Ok w ->
     program !! (state f, w) = None ->
     loop program step_limit debug fuel f = (f, Returned)).
Proof.
  intros Hr Hp.
  assert (run tm program step_limit debug = (initial_frame debug tm, Returned))
    as Hrun by (apply (loop_miss _ _ _ _ _ v); assumption).
  split; [exact Hrun |]. split; [rewrite Hrun; reflexivity |]. split.
  - unfold runProgram. rewrite Hrun. simpl. destruct debug; reflexivity.
  - intros fuel f w. apply loop_miss.
Qed.

Lemma C2_halt_on_missing_transition_witness :
  runProgram (__init__ [1; 0] 0 1) forever_right 3000 false =
    (__init__ [1; 0] 0 1, Returns None).
Proof.
  assert (read (__init__ [1; 0] 0 1) = Ok 1) as Hr by reflexivity.
  assert (forever_right !! (1, 1) = None) as Hp by reflexivity.
  exact (proj1 (proj2 (proj2
    (C2_halt_on_missing_transition (__init__ [1; 0] 0 1) forever_right 3000
       false 1 Hr Hp)))).
Defined.

(** ** Claim C3: termination by the step limit *)

Lemma read_all_zero (tm : TuringMachine) :
  head_in_bounds tm -> all_zero (_cells tm) -> read tm = Ok 0.
Proof.
  intros Hb Hz. destruct (read_in_bounds tm Hb) as (v & -> & Hv).
  f_equal. exact (proj1 (Forall_lookup _ _) Hz _ _ Hv).
Qed.

(** A step to the right from inside the window puts nothing in front. *)
Lemma right_one_in_bounds (tm : TuringMachine) :
  head_in_bounds tm ->
  _head (right 1 tm) = _head tm + 1 /\
  exists behind,
    _cells (right 1 tm) = _cells tm ++ behind /\ all_zero behind.
Proof.
  intros Hb. unfold right.
  destruct (_move_shape 1 tm) as (behind & Hc & Hz & Hh).
  unfold prepended in *. unfold head_in_bounds in Hb.
  destruct (Z.ltb_spec (_head tm + 1) 0); [lia |].
  split; [lia |]. exists behind. split; assumption.
Qed.

Lemma loop_forever_right (step_limit : Z) (debug : bool) (fuel : nat) (f : frame) :
  state f = 1 ->
  head_in_bounds (self f) ->
  all_zero (_cells (self f)) ->
  step f <= step_limit ->
  (Z.to_nat (step_limit - step f) <= fuel)%nat ->
  exists f',
    loop forever_right step_limit debug fuel f = (f', Returned) /\
    step f' = step_limit /\
    state f' = 1 /\
    _head (self f') = _head (self f) + (step_limit - step f) /\
    all_zero (_cells (self f')) /\
    exists behind, _cells (self f') = _cells (self f) ++ behind.
Proof.
  revert f. induction fuel as [|fuel IH]; intros f Hst Hb Hz Hs Hfuel;
    pose proof (read_all_zero _ Hb Hz) as Hr;
    destruct (Z.eq_dec (step f) step_limit) as [Heq | Hne];
    try (exists f; rewrite (loop_budget _ _ _ _ f 0 Hr) by lia;
         repeat split; try assumption; try lia;
         exists []; rewrite app_nil_r; reflexivity);
    try lia.
  destruct (right_one_in_bounds _ Hb) as (Hh1 & behind1 & Hc1 & Hz1).
  rewrite (loop_iterate _ _ _ _ f 0 ("R"%string, 1, 1) (right 1 (self f)));
    [| exact Hr | rewrite Hst; reflexivity | lia | reflexivity].
  edestruct IH as (f' & Hl & Hs' & Hst' & Hh' & Hz' & behind & Hc');
    [| | | | | exists f'; rewrite Hl]; simpl.
  - reflexivity.
  - apply _move_in_bounds.
  - rewrite Hc1. apply Forall_app. split; assumption.
  - lia.
  - lia.
  - simpl in *. repeat split; try assumption; try lia.
    exists (behind1 ++ behind). rewrite Hc', Hc1, app_assoc. reflexivity.
Qed.

(** C3.  For every tape, table and step limit the run comes back (it does not
    run out of the fuel of the model) after a chain of executed transitions
    counted by [step], at most [step_limit] of them (none when the limit is
    negative).  In particular, on an all-zero tape with the head inside the
    window and a limit [>= 0], the table [{(1,0): ("R",1,1)}] returns after
    exactly [step_limit] transitions, in state 1, with the head [step_limit]
    cells to the right of where it started and no cell put in front. *)
Theorem C3_step_limit_termination (tm : TuringMachine) (program : program)
    (step_limit : Z) (debug : bool) :
  (exists f c cs,
     run tm program step_limit debug = (f, c) /\
     c <> OutOfFuel /\
     chain program (tm, 1) cs /\
     chain_end (tm, 1) cs = (self f, state f) /\
     step f = len cs /\
     step f <= Z.max 0 step_limit /\
     (0 <= step_limit -> step f <= step_limit)) /\
  (program = forever_right ->
   all_zero (_cells tm) ->
   head_in_bounds tm ->
   0 <= step_limit ->
   exists f,
     run tm program step_limit debug = (f, Returned) /\
     step f = step_limit /\
     state f = 1 /\
     _head (self f) = _head tm + step_limit /\
     all_zero (_cells (self f)) /\
     exists behind, _cells (self f) = _cells tm ++ behind).
Proof.
  split.
  - destruct (run tm program step_limit debug) as [f c] eqn:Hrun.
    pose proof (run_total tm program step_limit debug) as Hfuel.
    pose proof (loop_step_bound program step_limit debug (Z.to_nat step_limit)
                  (initial_frame debug tm)) as Hbound.
    fold (run tm program step_limit debug) in Hbound.
    rewrite Hrun in Hfuel, Hbound. simpl in Hfuel, Hbound.
    apply loop_chain in Hrun as (cs & Hch & Hend & Hst & _). simpl in *.
    exists f, c, cs. repeat split; try assumption; lia.
  - intros -> Hz Hb Hlim.
    destruct (loop_forever_right step_limit debug (Z.to_nat step_limit)
                (initial_frame debug tm)) as (f & Hl & Hs & Hst & Hh & Hz' & Hc);
      simpl; try assumption; try reflexivity; try lia.
    exists f. simpl in *. repeat split; try assumption. lia.
Qed.

Lemma C3_step_limit_termination_witness :
  exists f,
    run (__init__ [0; 0] 1 1) forever_right 7 true = (f, Returned) /\
    step f = 7 /\
    state f = 1 /\
    _head (self f) = 1 + 7 /\
    all_zero (_cells (self f)) /\
    exists behind, _cells (self f) = [0; 0] ++ behind.
Proof.
  assert (all_zero (_cells (__init__ [0; 0] 1 1))) as Hz
    by (repeat constructor).
  assert (head_in_bounds (__init__ [0; 0] 1 1)) as Hb
    by (unfold head_in_bounds, len; simpl; lia).
  assert (0 <= 7) as Hlim by lia.
  exact (proj2 (C3_step_limit_termination (__init__ [0; 0] 1 1) forever_right
                  7 true) eq_refl Hz Hb Hlim).
Defined.

(** ** Claim C4: the trace *)

(** C4.  For every run with tracing requested there is the chain [cs] of the
    executed transitions, [step] of them, and the log is the snapshot of the
    initial configuration (state 1, initial head, initial cells) followed by
    the snapshots of the configurations after each transition, in order: its
    length is [step + 1].  A run that returns returns this log; a run from a
    head inside the window returns.  Without tracing the value returned is
    [None]. *)
Theorem C4_trace_contract (tm : TuringMachine) (program : program)
    (step_limit : Z) :
  (exists f c cs,
     run tm program step_limit true = (f, c) /\
     c <> OutOfFuel /\
     chain program (tm, 1) cs /\
     chain_end (tm, 1) cs = (self f, state f) /\
     step f = len cs /\
     log f = snapshot_of <$> (tm, 1) :: cs /\
     len (log f) = step f + 1 /\
     log f !! 0%nat =
       Some {| snap_state := 1; snap_head := _head tm; snap_tape := _cells tm |} /\
     (forall (i : nat) (c' : config),
        cs !! i = Some c' ->
        log f !! S i =
          Some {| snap_state := c'.2;
                  snap_head := _head c'.1;
                  snap_tape := _cells c'.1 |}) /\
     (c = Returned ->
      runProgram tm program step_limit true = (self f, Returns (Some (log f)))) /\
     (head_in_bounds tm -> c = Returned)) /\
  (forall r,
     (runProgram tm program step_limit false).2 = Returns r -> r = None) /\
  (head_in_bounds tm ->
   (runProgram tm program step_limit false).2 = Returns None).
Proof.
  split; [| split].
  - destruct (run tm program step_limit true) as [f c] eqn:Hrun.
    pose proof (run_total tm program step_limit true) as Hfuel.
    pose proof (run_in_bounds tm program step_limit true) as Hret.
    rewrite Hrun in Hfuel, Hret. simpl in Hfuel, Hret.
    pose proof Hrun as Hchain.
    apply loop_chain in Hchain as (cs & Hch & Hend & Hst & Hlog).
    simpl in Hch, Hend, Hst, Hlog.
    exists f, c, cs.
    split; [reflexivity |]. split; [exact Hfuel |]. split; [exact Hch |].
    split; [exact Hend |]. split; [lia |]. split; [exact Hlog |].
    split; [| split; [| split; [| split]]].
    + rewrite Hlog, Hst. unfold len. simpl. rewrite length_fmap. lia.
    + rewrite Hlog. reflexivity.
    + intros i c' Hi. rewrite Hlog. simpl.
      rewrite list_lookup_fmap, Hi. reflexivity.
    + intros ->. unfold runProgram. rewrite Hrun. reflexivity.
    + exact Hret.
  - intros r. unfold runProgram. simpl.
    destruct (run tm program step_limit false).2; simpl; congruence.
  - intros Hb. unfold runProgram. simpl.
    rewrite (run_in_bounds tm program step_limit false Hb). reflexivity.
Qed.

Lemma C4_trace_contract_witness :
  head_in_bounds (__init__ [0] 0 1) /\
  (runProgram (__init__ [0] 0 1) forever_right 2 false).2 = Returns None.
Proof.
  assert (head_in_bounds (__init__ [0] 0 1)) as Hb
    by (unfold head_in_bounds, len; simpl; lia).
  split; [exact Hb |].
  exact (proj2 (proj2 (C4_trace_contract (__init__ [0] 0 1) forever_right 2)) Hb).
Defined.

(** ** Claim C10: action strings the interpreter does not know *)

Lemma dispatch_unknown (tup : entry) (tm : TuringMachine) :
  action tup <> "R"%string ->
  action tup <> "L"%string ->
  action tup <> "W"%string ->
  dispatch tup tm = Ok tm.
Proof.
  intros HR HL HW. unfold dispatch.
  apply String.eqb_neq in HR, HL, HW. rewrite HR, HL, HW. reflexivity.
Qed.

(** C10.  Whenever the loop matches an entry whose action is none of ["R"],
    ["L"], ["W"] (the pair under the head is in the table and the budget is
    not used up), the body does nothing to the tape and does not raise: the
    transition keeps cells and head and moves to the entry's new state, and
    the loop goes on from the frame with the same machine, that state, the
    counter increased by one and, under [debug], one more snapshot in the
    log. *)
Theorem C10_unknown_action (program : program) (step_limit : Z) (debug : bool)
    (fuel : nat) (f : frame) (v : Z) (tup : entry) :
  read (self f) = Ok v ->
  program !! (state f, v) = Some tup ->
  step f < step_limit ->
  action tup <> "R"%string ->
  action tup <> "L"%string ->
  action tup <> "W"%string ->
  dispatch tup (self f) = Ok (self f) /\
  transition program (self f, state f) = Ok (Some (self f, new_state tup)) /\
  loop program step_limit debug (S fuel) f =
    loop program step_limit debug fuel
      {| self := self f;
         state := new_state tup;
         step := step f + 1;
         log := if debug
                then log f ++ [{| snap_state := new_state tup;
                                  snap_head := _head (self f);
                                  snap_tape := _cells (self f) |}]
                else log f |}.
Proof.
  intros Hr Hp Hs HR HL HW.
  pose proof (dispatch_unknown tup (self f) HR HL HW) as Hd.
  split; [exact Hd |]. split.
  - unfold transition. simpl. rewrite Hr. simpl. rewrite Hp, Hd. reflexivity.
  - apply (loop_iterate _ _ _ _ _ v tup); assumption.
Qed.

Lemma C10_unknown_action_witness :
  runProgram (__init__ [0; 4] 1 1) {[ (1, 4) := ("N"%string, 9, 2) ]} 5 true =
    (__init__ [0; 4] 1 1,
     Returns (Some [ {| snap_state := 1; snap_head := 1; snap_tape := [0; 4] |};
                     {| snap_state := 2; snap_head := 1; snap_tape := [0; 4] |} ])).
Proof.
  unfold runProgram, run.
  pose proof (C10_unknown_action {[ (1, 4) := ("N"%string, 9, 2) ]} 5 true 4
                (initial_frame true (__init__ [0; 4] 1 1)) 4
                ("N"%string, 9, 2)) as H.
  destruct H as (_ & _ & Hloop);
    [reflexivity | reflexivity | reflexivity
    | discriminate | discriminate | discriminate |].
  change (Z.to_nat 5) with 5%nat. rewrite Hloop. reflexivity.
Defined.

(** ** The reader on the text of a file *)

Lemma split_on_free (sep : ascii) (s : string) :
  free_of sep s -> split_on sep s = [s].
Proof.
  induction s as [|c s IH]; simpl; [reflexivity |].
  intros [Hc Hs]. apply Ascii.eqb_neq in Hc. rewrite Hc, (IH Hs). reflexivity.
Qed.

Lemma split_on_sep (sep : ascii) (s1 s2 : string) :
  free_of sep s1 ->
  split_on sep (s1 +:+ String sep s2) = s1 :: split_on sep s2.
Proof.
  induction s1 as [|c s1 IH]; simpl.
  - intros _. rewrite Ascii.eqb_refl. reflexivity.
  - intros [Hc Hs]. apply Ascii.eqb_neq in Hc. rewrite Hc, (IH Hs). reflexivity.
Qed.

Lemma free_of_app (c : ascii) (s1 s2 : string) :
  free_of c s1 -> free_of c s2 -> free_of c (s1 +:+ s2).
Proof.
  induction s1 as [|a s1 IH]; simpl; [tauto |].
  intros [Ha Hs] H2. split; [exact Ha | apply IH; assumption].
Qed.

Lemma free_of_join_fields (c : ascii) (r : list string) :
  c <> " "%char -> Forall (free_of c) r -> free_of c (join_fields r).
Proof.
  intros Hc Hr. induction Hr as [|f fs Hf Hfs IH]; [exact I |].
  destruct fs as [|g fs]; [exact Hf |].
  change (free_of c (f +:+ String " " (join_fields (g :: fs)))).
  apply free_of_app; [exact Hf |]. split; [congruence | exact IH].
Qed.

Lemma split_on_join_fields (f : string) (fs : list string) :
  Forall (free_of " ") (f :: fs) ->
  split_on " " (join_fields (f :: fs)) = f :: fs.
Proof.
  revert f. induction fs as [|g fs IH]; intros f Hall.
  - apply split_on_free. exact (Forall_inv Hall).
  - change (join_fields (f :: g :: fs))
      with (f +:+ String " " (join_fields (g :: fs))).
    rewrite split_on_sep by exact (Forall_inv Hall).
    rewrite IH by exact (Forall_inv_tail Hall). reflexivity.
Qed.

Lemma csv_row_join_fields (r : list string) :
  plain_row r -> csv_row (join_fields r) = r.
Proof.
  intros [Hplain Hne]. destruct r as [|f fs]; [reflexivity |].
  assert (Forall (free_of " ") (f :: fs)) as Hsp.
  { eapply Forall_impl; [exact Hplain |]. intros s Hs. exact (proj1 Hs). }
  pose proof (split_on_join_fields f fs Hsp) as Hsplit.
  unfold csv_row. destruct (join_fields (f :: fs)) eqn:Hj; [| exact Hsplit].
  simpl in Hsplit. congruence.
Qed.

Lemma drop_last_empty_cons (l l' : string) (ls : list string) :
  drop_last_empty (l :: l' :: ls) = l :: drop_last_empty (l' :: ls).
Proof. destruct l; reflexivity. Qed.

Lemma drop_last_empty_snoc (ls : list string) :
  drop_last_empty (ls ++ [EmptyString]) = ls.
Proof.
  induction ls as [|l ls IH]; [reflexivity |].
  change ((l :: ls) ++ [EmptyString]) with (l :: (ls ++ [EmptyString])).
  destruct (ls ++ [EmptyString]) as [|l' ls'] eqn:Hls.
  - destruct ls; discriminate.
  - rewrite drop_last_empty_cons, IH. reflexivity.
Qed.

Lemma file_lines_file_text (rows : list (list string)) :
  Forall plain_row rows -> file_lines (file_text rows) = join_fields <$> rows.
Proof.
  intros Hrows. unfold file_lines.
  assert (split_on "010" (file_text rows) =
          (join_fields <$> rows) ++ [EmptyString]) as ->.
  { induction Hrows as [|r rows [Hr _] _ IH]; [reflexivity |].
    cbn [file_text]. rewrite split_on_sep, IH; [reflexivity |].
    apply free_of_join_fields; [discriminate |].
    eapply Forall_impl; [exact Hr |]. intros s Hs. exact (proj1 (proj2 Hs)). }
  apply drop_last_empty_snoc.
Qed.

(** Reading back the text of a file gives its rows. *)
Lemma csv_reader_file_text (rows : list (list string)) :
  Forall plain_row rows -> csv_reader (file_text rows) = rows.
Proof.
  intros Hrows. unfold csv_reader. rewrite file_lines_file_text by exact Hrows.
  induction Hrows as [|r rows Hr _ IH]; [reflexivity |].
  rewrite !fmap_cons, IH, csv_row_join_fields by exact Hr. reflexivity.
Qed.

(** ** Claim C7: the parser on well-formed files *)

Section ParserFacts.

Variable int : string -> result Z.

(** The row of an instruction line parses to the entry of its token. *)
Lemma instruction_row (r : list string) (cur val nxt : Z) (t : token) :
  row_of int r (Instr cur val t nxt) ->
  instruction int r = Ok ((cur, val), token_entry t nxt).
Proof.
  intros (r0 & r1 & r3 & -> & H0 & H1 & H3).
  unfold instruction. simpl. rewrite H3. simpl. rewrite H0. simpl.
  rewrite H1. simpl. destruct t; reflexivity.
Qed.

Lemma read_rows_table (rows : list (list string)) (ls : list line)
    (prog : program) :
  Forall2 (row_of int) rows ls ->
  read_rows int rows prog = Ok (table_of ls prog).
Proof.
  intros Hrows. revert prog.
  induction Hrows as [|r l rows ls Hr _ IH]; intros prog; simpl.
  - reflexivity.
  - destruct l as [|cur val t nxt].
    + simpl in Hr. subst r. simpl. apply IH.
    + rewrite (instruction_row r cur val nxt t Hr).
      destruct Hr as (r0 & r1 & r3 & -> & _). simpl. apply IH.
Qed.

End ParserFacts.

(** Keys no line mentions keep what the table held before. *)
Lemma table_of_other (ls : list line) (prog : program) (k : Z * Z) :
  (forall i t nxt, ls !! i <> Some (Instr k.1 k.2 t nxt)) ->
  table_of ls prog !! k = prog !! k.
Proof.
  revert prog. induction ls as [|l ls IH]; intros prog Hno; simpl.
  - reflexivity.
  - assert (forall i t nxt, ls !! i <> Some (Instr k.1 k.2 t nxt)) as Hno'
      by (intros i; apply (Hno (S i))).
    destruct l as [|cur val t nxt]; [apply IH, Hno' |].
    rewrite IH by exact Hno'. apply lookup_insert_ne.
    intros <-. apply (Hno 0%nat t nxt). reflexivity.
Qed.

(** The last line for a key decides its entry. *)
Lemma table_of_last (ls : list line) (prog : program) (i : nat)
    (cur val nxt : Z) (t : token) :
  ls !! i = Some (Instr cur val t nxt) ->
  (forall j t' nxt', (i < j)%nat -> ls !! j <> Some (Instr cur val t' nxt')) ->
  table_of ls prog !! (cur, val) = Some (token_entry t nxt).
Proof.
  revert prog i. induction ls as [|l ls IH]; intros prog i Hi Hlast;
    [discriminate |].
  destruct i as [|i]; simpl in Hi.
  - injection Hi as ->. simpl.
    rewrite table_of_other.
    + apply lookup_insert_eq.
    + intros j t' nxt'. apply (Hlast (S j)). lia.
  - assert (forall j t' nxt',
              (i < j)%nat -> ls !! j <> Some (Instr cur val t' nxt')) as Hlast'
      by (intros j t' nxt' Hj; apply (Hlast (S j)); lia).
    destruct l; simpl; eapply IH; eassumption.
Qed.

(** Every entry of the table comes from a line, or was there before. *)
Lemma table_of_origin (ls : list line) (prog : program) (k : Z * Z) (e : entry) :
  table_of ls prog !! k = Some e ->
  (exists i t nxt,
     ls !! i = Some (Instr k.1 k.2 t nxt) /\ e = token_entry t nxt) \/
  prog !! k = Some e.
Proof.
  revert prog. induction ls as [|l ls IH]; intros prog He; simpl in He.
  - right. exact He.
  - destruct l as [|cur val t nxt].
    + destruct (IH _ He) as [(i & t & nxt & Hi & ->) | Hp]; [left | right; exact Hp].
      exists (S i), t, nxt. split; [exact Hi | reflexivity].
    + destruct (IH _ He) as [(i & t' & nxt' & Hi & ->) | Hp].
      * left. exists (S i), t', nxt'. split; [exact Hi | reflexivity].
      * destruct (decide ((cur, val) = k)) as [<- | Hne].
        -- rewrite lookup_insert_eq in Hp. injection Hp as <-.
           left. exists 0%nat, t, nxt. split; reflexivity.
        -- rewrite lookup_insert_ne in Hp by exact Hne. right. exact Hp.
Qed.

(** C7.  For every file whose rows are each a blank line or the four fields
    [currentState currentValue action newState], the integer fields being
    strings that [int] reads as integers and the action one of [L], [R], [0],
    [1], the parser does not raise and returns exactly the table of the
    instruction lines: the last line for a key [(currentState, currentValue)]
    gives its entry, [("L", 1, newState)] or [("R", 1, newState)] for a move,
    [("W", 0, newState)] or [("W", 1, newState)] for a write; every entry
    comes from a line; this is what is read from the text of the file, fields
    separated by single spaces, as long as no field holds a space, a line
    terminator or a quote; blank lines add nothing. *)
Theorem C7_parser_well_formed (int : string -> result Z)
    (rows : list (list string)) (ls : list line) :
  Forall2 (row_of int) rows ls ->
  exists prog,
    readMinimalProgram int rows = Ok prog /\
    prog = table_of ls ∅ /\
    (forall (i : nat) (cur val nxt : Z) (t : token),
       ls !! i = Some (Instr cur val t nxt) ->
       (forall j t' nxt',
          (i < j)%nat -> ls !! j <> Some (Instr cur val t' nxt')) ->
       prog !! (cur, val) =
         Some match t with
              | TokL => ("L"%string, 1, nxt)
              | TokR => ("R"%string, 1, nxt)
              | Tok0 => ("W"%string, 0, nxt)
              | Tok1 => ("W"%string, 1, nxt)
              end) /\
    (forall (k : Z * Z) (e : entry),
       prog !! k = Some e ->
       exists i t nxt,
         ls !! i = Some (Instr k.1 k.2 t nxt) /\ e = token_entry t nxt) /\
    (Forall plain_row rows ->
     readMinimalProgram int (csv_reader (file_text rows)) = Ok prog) /\
    readMinimalProgram int (filter (fun r => r <> []) rows) = Ok prog.
Proof.
  intros Hrows. exists (table_of ls ∅).
  split; [apply read_rows_table, Hrows |]. split; [reflexivity |].
  split; [| split; [| split]].
  - intros i cur val nxt t Hi Hlast.
    rewrite (table_of_last ls ∅ i cur val nxt t Hi Hlast).
    destruct t; reflexivity.
  - intros k e He.
    destruct (table_of_origin ls ∅ k e He) as [H | H]; [exact H |].
    rewrite lookup_empty in H. discriminate.
  - intros Hplain. rewrite csv_reader_file_text by exact Hplain.
    apply read_rows_table, Hrows.
  - unfold readMinimalProgram. generalize (∅ : program).
    induction Hrows as [|r l rows ls Hr Hrows IH]; intros prog; [reflexivity |].
    destruct l as [|cur val t nxt].
    + simpl in Hr. subst r. rewrite filter_cons_False by tauto. apply IH.
    + pose proof (instruction_row int r cur val nxt t Hr) as Hi.
      destruct Hr as (r0 & r1 & r3 & -> & _).
      rewrite filter_cons_True by discriminate.
      simpl. simpl in Hi. rewrite Hi. simpl. apply IH.
Qed.

Lemma C7_parser_well_formed_witness :
  exists prog,
    readMinimalProgram int_decimal
      (csv_reader "1 0 R 1

1 1 0 -2
") = Ok prog /\
    prog !! (1, 1) = Some ("W"%string, 0, -2).
Proof.
  assert (Forall2 (row_of int_decimal)
            (csv_reader "1 0 R 1

1 1 0 -2
")
            [Instr 1 0 TokR 1; Blank; Instr 1 1 Tok0 (-2)]) as Hrows.
  { repeat constructor; eexists _, _, _; repeat split; reflexivity. }
  destruct (C7_parser_well_formed int_decimal _ _ Hrows)
    as (prog & Hread & _ & Hlast & _).
  exists prog. split; [exact Hread |].
  apply (Hlast 2%nat 1 1 (-2) Tok0); [reflexivity |].
  intros [|[|[|j]]] t' nxt' Hj; try lia; discriminate.
Defined.

(** ** Claim C8: the unary tape *)

Lemma unary_loop_block (iterable : list Z) (tape : list Z) :
  Forall (fun v => 0 <= v) iterable ->
  unary_loop iterable tape = tape ++ unary_encoding (Z.to_nat <$> iterable).
Proof.
  intros Hpos. revert tape.
  induction Hpos as [|v rest Hv _ IH]; intros tape; simpl.
  - rewrite app_nil_r. reflexivity.
  - rewrite IH. unfold unary_block, py_repeat.
    rewrite Z2Nat.inj_add by lia. change (Z.to_nat 1) with 1%nat.
    rewrite Nat.add_1_r, <- !app_assoc. reflexivity.
Qed.

(** C8.  For every finite sequence of non-negative integers,
    [generateUnaryMachine] builds the tape whose cells represent each integer
    [v], in order, as [v + 1] cells holding 1 followed by one cell holding 0,
    with the head at index 0; the input [[2, 0, 1]] gives the cells
    [1 1 1 0 1 0 1 1 0]. *)
Theorem C8_unary_construction (iterable : list Z) :
  Forall (fun v => 0 <= v) iterable ->
  generateUnaryMachine iterable =
    {| _cells := unary_encoding (Z.to_nat <$> iterable); _head := 0 |} /\
  unary_encoding (Z.to_nat <$> iterable) =
    concat ((fun v => replicate (Z.to_nat v + 1) 1 ++ [0]) <$> iterable) /\
  generateUnaryMachine [2; 0; 1] =
    {| _cells := [1; 1; 1; 0; 1; 0; 1; 1; 0]; _head := 0 |}.
Proof.
  intros Hpos. split; [| split].
  - unfold generateUnaryMachine, __init__.
    rewrite unary_loop_block by exact Hpos. reflexivity.
  - clear Hpos. induction iterable as [|v rest IH]; [reflexivity |].
    rewrite !fmap_cons. cbn [unary_encoding concat]. rewrite IH.
    unfold unary_block. rewrite Nat.add_1_r. reflexivity.
  - reflexivity.
Qed.

Lemma C8_unary_construction_witness :
  Forall (fun v => 0 <= v) [3; 0] /\
  generateUnaryMachine [3; 0] =
    {| _cells := [1; 1; 1; 1; 0; 1; 0]; _head := 0 |}.
Proof.
  assert (Forall (fun v => 0 <= v) [3; 0]) as Hpos by (repeat constructor; lia).
  split; [exact Hpos |].
  exact (proj1 (C8_unary_construction [3; 0] Hpos)).
Defined.

(** ** Further properties of the tape *)

Lemma TuringMachine_eta (tm : TuringMachine) :
  {| _cells := _cells tm; _head := _head tm |} = tm.
Proof. destruct tm; reflexivity. Qed.

(** X1.  From a head inside the window, moves in one direction add up: moving
    right by [b] and then by [a] (both non-negative) leaves the same cells and
    head as moving right by [a + b] at once, and the same holds to the left. *)
Theorem X1_moves_add_up (tm : TuringMachine) (a b : Z) :
  head_in_bounds tm ->
  0 <= a ->
  0 <= b ->
  right a (right b tm) = right (a + b) tm /\
  left a (left b tm) = left (a + b) tm.
Proof.
  intros [Hlo Hhi] Ha Hb. split.
  - unfold right.
    destruct (_move_cases b tm) as [[H Hm] | [[H Hm] | [H Hm]]];
      simpl in H; [lia | |]; rewrite Hm.
    + destruct (Z.eq_dec a 0) as [-> | Hne].
      * destruct (_move_cases 0 {| _cells := _cells tm ++
                    py_repeat 0 (_head tm + b - len (_cells tm) + 1);
                    _head := _head tm + b |})
          as [[H0 ->] | [[H0 ->] | [H0 ->]]]; simpl in H0 |- *;
          rewrite ?len_app, ?len_py_repeat in H0; try lia.
        rewrite Z.add_0_r. replace (0 + b) with b by lia. symmetry. exact Hm.
      * destruct (_move_cases a {| _cells := _cells tm ++
                    py_repeat 0 (_head tm + b - len (_cells tm) + 1);
                    _head := _head tm + b |})
          as [[H0 ->] | [[H0 ->] | [H0 ->]]]; simpl in H0 |- *;
          rewrite ?len_app, ?len_py_repeat in H0; try lia.
        destruct (_move_cases (a + b) tm) as [[H1 ->] | [[H1 ->] | [H1 ->]]];
          simpl in H1; try lia.
        rewrite len_app, len_py_repeat, <- app_assoc.
        rewrite <- py_repeat_add by lia. f_equal; [f_equal; f_equal; lia | lia].
    + destruct (_move_cases a {| _cells := _cells tm; _head := _head tm + b |})
        as [[H0 ->] | [[H0 ->] | [H0 ->]]]; simpl in H0 |- *; try lia;
        destruct (_move_cases (a + b) tm) as [[H1 ->] | [[H1 ->] | [H1 ->]]];
        simpl in H1; try lia; f_equal; try lia.
      f_equal. f_equal. lia.
  - unfold left.
    destruct (_move_cases (- b) tm) as [[H Hm] | [[H Hm] | [H Hm]]];
      simpl in H; [| lia |]; rewrite Hm.
    + destruct (Z.eq_dec a 0) as [-> | Hne].
      * destruct (_move_cases (- 0) {| _cells :=
                    py_repeat 0 (Z.abs (_head tm + - b)) ++ _cells tm;
                    _head := 0 |})
          as [[H0 ->] | [[H0 ->] | [H0 ->]]]; simpl in H0 |- *;
          rewrite ?len_app, ?len_py_repeat in H0; try lia.
        replace (- (0 + b)) with (- b) by lia. symmetry. exact Hm.
      * destruct (_move_cases (- a) {| _cells :=
                    py_repeat 0 (Z.abs (_head tm + - b)) ++ _cells tm;
                    _head := 0 |})
          as [[H0 ->] | [[H0 ->] | [H0 ->]]]; simpl in H0 |- *;
          rewrite ?len_app, ?len_py_repeat in H0; try lia.
        destruct (_move_cases (- (a + b)) tm)
          as [[H1 ->] | [[H1 ->] | [H1 ->]]]; simpl in H1; try lia.
        rewrite app_assoc, <- py_repeat_add by lia.
        f_equal. f_equal. f_equal. lia.
    + destruct (_move_cases (- a)
                  {| _cells := _cells tm; _head := _head tm + - b |})
        as [[H0 ->] | [[H0 ->] | [H0 ->]]]; simpl in H0 |- *; try lia;
        destruct (_move_cases (- (a + b)) tm)
          as [[H1 ->] | [[H1 ->] | [H1 ->]]];
        simpl in H1; try lia; f_equal; try lia.
      f_equal. f_equal. lia.
Qed.

Lemma X1_moves_add_up_witness :
  right 2 (right 3 (__init__ [4; 0] 1 1)) = right 5 (__init__ [4; 0] 1 1) /\
  left 2 (left 3 (__init__ [4; 0] 1 1)) = left 5 (__init__ [4; 0] 1 1).
Proof.
  apply X1_moves_add_up; [unfold head_in_bounds, len; simpl; lia | lia | lia].
Defined.

(** X2.  A move by zero cells leaves the machine as it is exactly when the
    head is inside the window; on any other machine it extends the tape. *)
Theorem X2_move_zero (tm : TuringMachine) :
  (right 0 tm = tm <-> head_in_bounds tm) /\
  (left 0 tm = tm <-> head_in_bounds tm).
Proof.
  assert (_move 0 tm = tm <-> head_in_bounds tm) as Hmove.
  { split.
    - intros <-. apply _move_in_bounds.
    - intros [Hlo Hhi].
      destruct (_move_cases 0 tm) as [[H _] | [[H _] | [H ->]]];
        simpl in H; try lia.
      rewrite Z.add_0_r. apply TuringMachine_eta. }
  split; exact Hmove.
Qed.

Lemma py_index_indexable {A : Type} (l : list A) (i : Z) :
  - len l <= i < len l -> exists k, py_index l i = Ok k /\ (k < length l)%nat.
Proof.
  intros Hi. unfold py_index.
  destruct (Z.leb_spec 0 i).
  - destruct (Z.ltb_spec i (len l)); [| lia].
    eexists. split; [reflexivity |]. unfold len in *. lia.
  - destruct (Z.leb_spec (- len l) i); [| lia].
    eexists. split; [reflexivity |]. unfold len in *. lia.
Qed.

Lemma py_index_not_indexable {A : Type} (l : list A) (i : Z) :
  ~ (- len l <= i < len l) -> py_index l i = Raise IndexError.
Proof.
  intros Hi. unfold py_index.
  destruct (Z.leb_spec 0 i).
  - destruct (Z.ltb_spec i (len l)); [lia | reflexivity].
  - destruct (Z.leb_spec (- len l) i); [lia | reflexivity].
Qed.

Lemma read_indexable (tm : TuringMachine) :
  head_indexable tm -> exists v, read tm = Ok v.
Proof.
  intros Hi. unfold read.
  destruct (py_index_indexable _ _ Hi) as (k & -> & Hk). simpl.
  destruct (lookup_lt_is_Some_2 _ _ Hk) as [v ->]. eauto.
Qed.

Lemma read_Ok_indexable (tm : TuringMachine) (v : Z) :
  read tm = Ok v -> head_indexable tm.
Proof.
  intros Hr. unfold head_indexable.
  destruct (decide (- len (_cells tm) <= _head tm < len (_cells tm)))
    as [H | H]; [exact H |].
  unfold read in Hr. rewrite py_index_not_indexable in Hr by exact H.
  discriminate.
Qed.

(** X3.  [read] and [write] go through exactly when the head lies in
    [-len, len), the range of indices the deque accepts; outside it both
    raise [IndexError], whatever the value to write. *)
Theorem X3_read_write_errors (tm : TuringMachine) (x : Z) :
  (head_indexable tm ->
   exists v tm', read tm = Ok v /\ write x tm = Ok tm') /\
  (~ head_indexable tm ->
   read tm = Raise IndexError /\ write x tm = Raise IndexError).
Proof.
  split.
  - intros Hi. destruct (read_indexable tm Hi) as [v Hv].
    destruct (write_after_read x v tm Hv) as [tm' Hw]. eauto.
  - intros Hi. unfold read, write.
    rewrite py_index_not_indexable by exact Hi. split; reflexivity.
Qed.

Lemma X3_read_write_errors_witness :
  (exists v tm', read (__init__ [3; 4] (-2) 1) = Ok v /\
                 write 9 (__init__ [3; 4] (-2) 1) = Ok tm') /\
  read (__init__ [3; 4] 2 1) = Raise IndexError /\
  write 9 (__init__ [3; 4] 2 1) = Raise IndexError.
Proof.
  split.
  - apply (proj1 (X3_read_write_errors (__init__ [3; 4] (-2) 1) 9)).
    unfold head_indexable, len. simpl. lia.
  - apply (proj2 (X3_read_write_errors (__init__ [3; 4] 2 1) 9)).
    unfold head_indexable, len. simpl. lia.
Defined.

(** X4.  Of two writes in a row the second one wins, and writing back the
    value just read leaves the machine as it is. *)
Theorem X4_write_laws (tm : TuringMachine) :
  (forall (x y : Z) (tm1 : TuringMachine),
     write x tm = Ok tm1 -> write y tm1 = write y tm) /\
  (forall v : Z, read tm = Ok v -> write v tm = Ok tm).
Proof.
  split.
  - intros x y tm1. unfold write.
    destruct (py_index (_cells tm) (_head tm)) as [k|e] eqn:Hk; simpl;
      [| discriminate].
    intros [= <-]. simpl.
    assert (py_index (<[k := x]> (_cells tm)) (_head tm) = Ok k) as ->.
    { unfold py_index, len in *. rewrite length_insert. exact Hk. }
    simpl. rewrite list_insert_insert_eq. reflexivity.
  - intros v. unfold read, write.
    destruct (py_index (_cells tm) (_head tm)) as [k|e]; simpl; [| discriminate].
    destruct (_cells tm !! k) as [w|] eqn:Hw; [| discriminate].
    intros [= ->]. rewrite list_insert_id by exact Hw.
    rewrite TuringMachine_eta. reflexivity.
Qed.

Lemma X4_write_laws_witness :
  write 6 {| _cells := [1; 5]; _head := 1 |} = write 6 (__init__ [1; 2] 1 1) /\
  write 2 (__init__ [1; 2] 1 1) = Ok (__init__ [1; 2] 1 1).
Proof.
  destruct (X4_write_laws (__init__ [1; 2] 1 1)) as [Hww Hrw]. split.
  - apply (Hww 5 6). reflexivity.
  - apply Hrw. reflexivity.
Defined.

Lemma do_move_len (m : move) (tm : TuringMachine) :
  len (_cells tm) <= len (_cells (do_move m tm)).
Proof.
  destruct (do_move_shape m tm) as (behind & -> & _ & _).
  rewrite !len_app.
  pose proof (len_nonneg (py_repeat 0 (prepended (displacement m) tm))).
  pose proof (len_nonneg behind). lia.
Qed.

(** X5.  The tape never shrinks: over any sequence of moves, reads and writes
    that does not raise, the number of cells does not go down, and it stays
    the same when the sequence holds no move. *)
Theorem X5_tape_never_shrinks (os : list op) (tm tm' : TuringMachine)
    (rs : list (option Z)) :
  do_ops os tm = Ok (tm', rs) ->
  len (_cells tm) <= len (_cells tm') /\
  ((forall m, OpMove m ∉ os) ->
   len (_cells tm') = len (_cells tm) /\ _head tm' = _head tm).
Proof.
  revert tm tm' rs. induction os as [|o os IH]; intros tm tm' rs; simpl.
  - intros [= <- <-]. split; [lia | intros _; split; reflexivity].
  - destruct (do_op o tm) as [[tm1 r]|e] eqn:Ho; simpl; [| discriminate].
    destruct (do_ops os tm1) as [[tm2 rs2]|e] eqn:Hos; simpl; [| discriminate].
    intros [= <- <-]. destruct (IH _ _ _ Hos) as [Hle Hsame].
    assert (len (_cells tm) <= len (_cells tm1) /\
            ((forall m, o <> OpMove m) ->
             len (_cells tm1) = len (_cells tm) /\ _head tm1 = _head tm))
      as [Hle1 Hsame1].
    { destruct o as [m| |v]; simpl in Ho.
      - injection Ho as <- <-. split; [apply do_move_len |].
        intros Hm. destruct (Hm m eq_refl).
      - destruct (read tm); simpl in Ho; [| discriminate].
        injection Ho as <- <-. split; [lia | intros _; split; reflexivity].
      - destruct (write v tm) as [tmw|] eqn:Hw; simpl in Ho; [| discriminate].
        injection Ho as <- <-. apply write_Ok in Hw as [Hh Hl].
        split; [lia | intros _; split; [exact Hl | exact Hh]]. }
    split; [lia |]. intros Hno.
    destruct Hsame as [Hl2 Hh2].
    { intros m Hm. apply (Hno m). right. exact Hm. }
    destruct Hsame1 as [Hl1 Hh1].
    { intros m ->. apply (Hno m). left. }
    split; congruence.
Qed.

Lemma X5_tape_never_shrinks_witness :
  len (_cells (__init__ [1; 2] 0 1)) <=
    len (_cells {| _cells := [0; 0; 7; 2]; _head := 2 |}).
Proof.
  apply (X5_tape_never_shrinks
           [OpMove (MoveLeft 2); OpMove (MoveRight 2); OpWrite 7; OpRead]
           (__init__ [1; 2] 0 1) {| _cells := [0; 0; 7; 2]; _head := 2 |}
           [None; None; None; Some 7]).
  reflexivity.
Defined.

(** X6.  A cell the head reaches beyond either end of the tape reads 0:
    after [right n] with [_head + n >= len], and after [left n] with
    [_head - n < 0], [read] returns 0, on every machine. *)
Theorem X6_fresh_cell_reads_zero (tm : TuringMachine) (n : Z) :
  (_head tm + n >= len (_cells tm) -> read (right n tm) = Ok 0) /\
  (_head tm - n < 0 -> read (left n tm) = Ok 0).
Proof.
  assert (forall num,
            _head tm + num >= len (_cells tm) \/ _head tm + num < 0 ->
            read (_move num tm) = Ok 0) as Hmove.
  { intros num Hout.
    destruct (read_in_bounds _ (_move_in_bounds num tm)) as (v & -> & Hv).
    f_equal. pose proof (len_nonneg (_cells tm)) as Hlen.
    destruct (_move_cases num tm) as [[H Hm] | [[H Hm] | [H Hm]]];
      simpl in H; rewrite Hm in Hv; simpl in Hv; [| | lia].
    - rewrite lookup_app_l in Hv
        by (unfold py_repeat; rewrite length_replicate; simpl; lia).
      apply lookup_replicate in Hv. tauto.
    - rewrite lookup_app_r in Hv by (unfold len in *; lia).
      apply lookup_replicate in Hv. tauto. }
  split; intros H.
  - apply Hmove. left. exact H.
  - unfold left. apply Hmove. right. lia.
Qed.

Lemma X6_fresh_cell_reads_zero_witness :
  read (right 4 (__init__ [7; 8] 0 1)) = Ok 0 /\
  read (left 1 (__init__ [7; 8] 0 1)) = Ok 0.
Proof.
  destruct (X6_fresh_cell_reads_zero (__init__ [7; 8] 0 1) 4) as [Hr _].
  destruct (X6_fresh_cell_reads_zero (__init__ [7; 8] 0 1) 1) as [_ Hl].
  split; [apply Hr | apply Hl]; unfold len; simpl; lia.
Defined.

Lemma X2_move_zero_witness :
  right 0 (__init__ [1; 2] 1 1) = __init__ [1; 2] 1 1.
Proof.
  apply (proj1 (X2_move_zero (__init__ [1; 2] 1 1))).
  unfold head_in_bounds, len. simpl. lia.
Defined.

(** ** Further properties of the interpreter *)

Lemma in_bounds_indexable (tm : TuringMachine) :
  head_in_bounds tm -> head_indexable tm.
Proof.
  unfold head_in_bounds, head_indexable.
  pose proof (len_nonneg (_cells tm)). lia.
Qed.

(** The body of the loop neither raises after a successful read nor leaves a
    machine the next read would raise on. *)
Lemma dispatch_indexable (tup : entry) (tm : TuringMachine) :
  head_indexable tm ->
  exists tm', dispatch tup tm = Ok tm' /\ head_indexable tm'.
Proof.
  intros Hi. unfold dispatch.
  destruct (String.eqb (action tup) "R");
    [eexists; split;
       [reflexivity | apply in_bounds_indexable, _move_in_bounds] |].
  destruct (String.eqb (action tup) "L");
    [eexists; split;
       [reflexivity | apply in_bounds_indexable, _move_in_bounds] |].
  destruct (String.eqb (action tup) "W"); [| eauto].
  destruct (read_indexable tm Hi) as [v Hv].
  destruct (write_after_read (parameter tup) v tm Hv) as [tm' Hw].
  exists tm'. split; [exact Hw |].
  apply write_Ok in Hw as [Hh Hl]. unfold head_indexable in *.
  rewrite Hh, Hl. exact Hi.
Qed.

Section LoopFacts.

Variable program : program.
Variable step_limit : Z.
Variable debug : bool.

Lemma loop_raise_now (fuel : nat) (f : frame) (e : exn) :
  read (self f) = Raise e ->
  loop program step_limit debug fuel f = (f, Raised e).
Proof. intros Hr. rewrite loop_unfold, Hr. reflexivity. Qed.

Lemma loop_indexable (fuel : nat) (f : frame) (e : exn) :
  head_indexable (self f) ->
  (loop program step_limit debug fuel f).2 <> Raised e.
Proof.
  revert f. induction fuel as [|fuel IH]; intros f Hi; rewrite loop_unfold;
    destruct (read_indexable _ Hi) as [v ->];
    destruct (program !! (state f, v)) as [tup|]; simpl; try discriminate;
    destruct (step f <? step_limit); simpl; try discriminate.
  destruct (dispatch_indexable tup _ Hi) as (tm' & -> & Hi').
  apply IH. exact Hi'.
Qed.

(** More fuel than the remaining budget changes nothing. *)
Lemma loop_fuel_irrelevant (fuel1 fuel2 : nat) (f : frame) :
  (Z.to_nat (step_limit - step f) <= fuel1)%nat ->
  (Z.to_nat (step_limit - step f) <= fuel2)%nat ->
  loop program step_limit debug fuel1 f = loop program step_limit debug fuel2 f.
Proof.
  revert fuel2 f. induction fuel1 as [|fuel1 IH]; intros fuel2 f H1 H2;
    rewrite (loop_unfold _ _ _ fuel2), loop_unfold;
    destruct (read (self f)) as [v|e]; try reflexivity;
    destruct (program !! (state f, v)) as [tup|]; try reflexivity;
    destruct (Z.ltb_spec (step f) step_limit); try reflexivity; try lia.
  destruct fuel2 as [|fuel2]; [lia |].
  destruct (dispatch tup (self f)) as [tm'|e]; [| reflexivity].
  apply IH; simpl; lia.
Qed.

(** How the loop can come back normally: on a lookup miss, or with the budget
    used up. *)
Lemma loop_exit (fuel : nat) (f f' : frame) :
  loop program step_limit debug fuel f = (f', Returned) ->
  exists v,
    read (self f') = Ok v /\
    (program !! (state f', v) = None \/ step_limit <= step f').
Proof.
  revert f. induction fuel as [|fuel IH]; intros f; rewrite loop_unfold;
    destruct (read (self f)) as [v|e] eqn:Hr; try discriminate;
    destruct (program !! (state f, v)) as [tup|] eqn:Hp;
    try (intros [= <-]; exists v; split; [exact Hr | left; exact Hp]);
    destruct (Z.ltb_spec (step f) step_limit);
    try (intros [= <-]; exists v; split; [exact Hr | right; lia]);
    try discriminate.
  destruct (dispatch tup (self f)) as [tm'|e]; [| discriminate].
  apply IH.
Qed.

End LoopFacts.

(** X7.  A run raises only at its very first [read]: it raises exactly when
    the head of the machine it is given is not an index the deque accepts, the
    exception is [IndexError], and then no transition has been executed and
    the machine is untouched.  A run that gets past this first read returns
    normally, whatever the table holds. *)
Theorem X7_run_raises_only_at_start (tm : TuringMachine) (program : program)
    (step_limit : Z) (debug : bool) :
  (head_indexable tm -> (run tm program step_limit debug).2 = Returned) /\
  (~ head_indexable tm ->
   run tm program step_limit debug =
     (initial_frame debug tm, Raised IndexError) /\
   runProgram tm program step_limit debug = (tm, Raises IndexError)).
Proof.
  split.
  - intros Hi.
    pose proof (run_total tm program step_limit debug) as Hfuel.
    pose proof (fun e => loop_indexable program step_limit debug
                           (Z.to_nat step_limit) (initial_frame debug tm) e Hi)
      as Hraise.
    fold (run tm program step_limit debug) in Hraise.
    destruct (run tm program step_limit debug).2 as [|e|];
      [reflexivity | destruct (Hraise e eq_refl) | destruct (Hfuel eq_refl)].
  - intros Hi.
    assert (read tm = Raise IndexError) as Hr.
    { unfold read. rewrite py_index_not_indexable by exact Hi. reflexivity. }
    assert (run tm program step_limit debug =
              (initial_frame debug tm, Raised IndexError)) as Hrun
      by (apply loop_raise_now; exact Hr).
    split; [exact Hrun |]. unfold runProgram. rewrite Hrun. reflexivity.
Qed.

Lemma X7_run_raises_only_at_start_witness :
  (run (__init__ [0; 0] (-1) 1) forever_right 4 true).2 = Returned /\
  runProgram (__init__ [] 0 1) forever_right 4 true =
    (__init__ [] 0 1, Raises IndexError).
Proof.
  split.
  - apply (proj1 (X7_run_raises_only_at_start (__init__ [0; 0] (-1) 1)
                    forever_right 4 true)).
    unfold head_indexable, len. simpl. lia.
  - apply (proj2 (X7_run_raises_only_at_start (__init__ [] 0 1)
                    forever_right 4 true)).
    unfold head_indexable, len. simpl. lia.
Defined.

(** X8.  With a step limit of zero or less the run executes no transition: on
    a machine whose first read goes through it returns at once, the machine
    untouched and the log, under [debug], holding the initial snapshot
    only. *)
Theorem X8_no_budget (tm : TuringMachine) (program : program)
    (step_limit : Z) (debug : bool) :
  step_limit <= 0 ->
  head_indexable tm ->
  run tm program step_limit debug = (initial_frame debug tm, Returned) /\
  runProgram tm program step_limit debug =
    (tm, Returns (if debug then Some [take_snapshot 1 tm] else None)).
Proof.
  intros Hlim Hi. destruct (read_indexable tm Hi) as [v Hv].
  assert (run tm program step_limit debug = (initial_frame debug tm, Returned))
    as Hrun by (apply (loop_budget _ _ _ _ _ v); [exact Hv | simpl; lia]).
  split; [exact Hrun |]. unfold runProgram. rewrite Hrun. simpl.
  destruct debug; reflexivity.
Qed.

Lemma X8_no_budget_witness :
  runProgram (__init__ [0] 0 1) forever_right (-3) true =
    (__init__ [0] 0 1, Returns (Some [take_snapshot 1 (__init__ [0] 0 1)])).
Proof.
  apply (proj2 (X8_no_budget (__init__ [0] 0 1) forever_right (-3) true
                  ltac:(lia)
                  ltac:(unfold head_indexable, len; simpl; lia))).
Defined.

Section DebugFacts.

Variable program : program.
Variable step_limit : Z.

(** The loop with and without the log, from frames that agree on everything
    but the log. *)
Lemma loop_debug (fuel : nat) (f g : frame) :
  self f = self g ->
  state f = state g ->
  step f = step g ->
  self (loop program step_limit true fuel f).1 =
    self (loop program step_limit false fuel g).1 /\
  state (loop program step_limit true fuel f).1 =
    state (loop program step_limit false fuel g).1 /\
  step (loop program step_limit true fuel f).1 =
    step (loop program step_limit false fuel g).1 /\
  (loop program step_limit true fuel f).2 =
    (loop program step_limit false fuel g).2.
Proof.
  revert f g. induction fuel as [|fuel IH]; intros f g Hself Hstate Hstep;
    rewrite (loop_unfold _ _ _ _ f), (loop_unfold _ _ _ _ g);
    rewrite <- Hself, <- Hstate, <- Hstep;
    destruct (read (self f)) as [v|e]; simpl; auto;
    destruct (program !! (state f, v)) as [tup|]; simpl; auto;
    destruct (step f <? step_limit); simpl; auto.
  destruct (dispatch tup (self f)) as [tm'|e]; simpl;
    [apply IH; simpl; congruence | auto].
Qed.

End DebugFacts.

(** X9.  Tracing only observes: with and without [debug] a run leaves the
    same machine, ends in the same state after the same number of
    transitions, and returns or raises alike. *)
Theorem X9_debug_only_observes (tm : TuringMachine) (program : program)
    (step_limit : Z) :
  (runProgram tm program step_limit true).1 =
    (runProgram tm program step_limit false).1 /\
  state (run tm program step_limit true).1 =
    state (run tm program step_limit false).1 /\
  step (run tm program step_limit true).1 =
    step (run tm program step_limit false).1 /\
  (run tm program step_limit true).2 = (run tm program step_limit false).2.
Proof.
  unfold runProgram, run. simpl.
  apply loop_debug; reflexivity.
Qed.

Section BudgetFacts.

Variable program : program.
Variable debug : bool.

(** A loop that came back normally under a limit is an initial part of the
    loop under a larger limit. *)
Lemma loop_resume (step_limit step_limit' : Z) (fuel fuel' : nat)
    (f f1 : frame) :
  loop program step_limit debug fuel f = (f1, Returned) ->
  step_limit <= step_limit' ->
  (Z.to_nat (step_limit' - step f) <= fuel')%nat ->
  exists fuel'',
    (Z.to_nat (step_limit' - step f1) <= fuel'')%nat /\
    loop program step_limit' debug fuel' f =
      loop program step_limit' debug fuel'' f1.
Proof.
  intros Hloop Hle. revert f fuel' Hloop.
  induction fuel as [|fuel IH]; intros f fuel'; rewrite loop_unfold;
    destruct (read (self f)) as [v|e] eqn:Hr; try discriminate;
    destruct (program !! (state f, v)) as [tup|] eqn:Hp;
    try (intros [= <-] Hfuel; exists fuel'; split; [exact Hfuel | reflexivity]);
    destruct (Z.ltb_spec (step f) step_limit);
    try (intros [= <-] Hfuel; exists fuel'; split; [exact Hfuel | reflexivity]);
    try discriminate.
  destruct (dispatch tup (self f)) as [tm'|e] eqn:Hd; [| discriminate].
  intros Hloop Hfuel. destruct fuel' as [|fuel']; [lia |].
  rewrite (loop_iterate _ _ _ _ f v tup tm') by (assumption || lia).
  apply (IH _ fuel' Hloop). simpl. lia.
Qed.

End BudgetFacts.

(** X10.  A larger step limit continues the run where the smaller one
    stopped: if the run under [step_limit] returns, the run under any
    [step_limit' >= step_limit] goes on from its final machine and state by
    further transitions, counts at least as many steps, and its log starts
    with the log of the shorter run; if the shorter run stopped before its
    limit, the longer run ends in the very same frame. *)
Theorem X10_larger_budget_continues (tm : TuringMachine) (program : program)
    (step_limit step_limit' : Z) (debug : bool) (f1 : frame) :
  step_limit <= step_limit' ->
  run tm program step_limit debug = (f1, Returned) ->
  exists f2 c2 cs,
    run tm program step_limit' debug = (f2, c2) /\
    chain program (self f1, state f1) cs /\
    chain_end (self f1, state f1) cs = (self f2, state f2) /\
    step f2 = step f1 + len cs /\
    log f1 `prefix_of` log f2 /\
    (step f1 < step_limit -> f2 = f1 /\ c2 = Returned).
Proof.
  intros Hle Hrun. unfold run in *.
  destruct (loop_resume program debug step_limit step_limit'
              (Z.to_nat step_limit) (Z.to_nat step_limit')
              (initial_frame debug tm) f1 Hrun Hle)
    as (fuel'' & Hfuel & Hresume); [simpl; lia |].
  destruct (loop program step_limit' debug fuel'' f1) as [f2 c2] eqn:Hloop.
  exists f2, c2.
  destruct (loop_chain _ _ _ _ _ _ _ Hloop) as (cs & Hch & Hend & Hst & Hlog).
  exists cs. split; [exact Hresume |]. split; [exact Hch |].
  split; [exact Hend |]. split; [exact Hst |].
  split; [rewrite Hlog; eexists; reflexivity |].
  intros Hstop.
  destruct (loop_exit _ _ _ _ _ _ Hrun) as (v & Hv & [Hmiss | Hbudget]);
    [| lia].
  rewrite (loop_miss _ _ _ _ f1 v Hv Hmiss) in Hloop.
  injection Hloop as <- <-. split; reflexivity.
Qed.

Lemma X10_larger_budget_continues_witness :
  exists f2 c2,
    run (__init__ [0] 0 1) forever_right 5 true = (f2, c2) /\
    (run (__init__ [0] 0 1) forever_right 2 true).1.(log) `prefix_of` log f2.
Proof.
  destruct (X10_larger_budget_continues (__init__ [0] 0 1) forever_right 2 5
              true (run (__init__ [0] 0 1) forever_right 2 true).1)
    as (f2 & c2 & cs & Hrun & _ & _ & _ & Hpre & _);
    [lia | reflexivity |].
  exists f2, c2. split; assumption.
Defined.

(** X11.  Why a run came back can be read off its step count: a run that
    returns with fewer steps than the limit stands on a pair
    [(state, value)] the table does not hold, and a run that returns standing
    on a pair the table holds has used up its budget exactly (for a limit
    [>= 0]). *)
Theorem X11_exit_reason (tm : TuringMachine) (program : program)
    (step_limit : Z) (debug : bool) (f : frame) :
  run tm program step_limit debug = (f, Returned) ->
  exists v,
    read (self f) = Ok v /\
    (step f < step_limit -> program !! (state f, v) = None) /\
    (is_Some (program !! (state f, v)) -> 0 <= step_limit ->
     step f = step_limit).
Proof.
  intros Hrun.
  pose proof (loop_step_bound program step_limit debug (Z.to_nat step_limit)
                (initial_frame debug tm)) as Hbound.
  unfold run in Hrun. rewrite Hrun in Hbound. simpl in Hbound.
  destruct (loop_exit _ _ _ _ _ _ Hrun) as (v & Hv & Hwhy).
  exists v. split; [exact Hv |]. split.
  - intros Hlt. destruct Hwhy as [Hmiss | Hbudget]; [exact Hmiss | lia].
  - intros [tup Htup] Hlim.
    destruct Hwhy as [Hmiss | Hbudget]; [congruence | lia].
Qed.

Lemma X11_exit_reason_witness :
  exists v,
    read (self (run (__init__ [0; 2] 0 1) forever_right 9 false).1) = Ok v /\
    forever_right !! (state (run (__init__ [0; 2] 0 1) forever_right 9 false).1, v)
      = None.
Proof.
  destruct (X11_exit_reason (__init__ [0; 2] 0 1) forever_right 9 false
              (run (__init__ [0; 2] 0 1) forever_right 9 false).1 eq_refl)
    as (v & Hv & Hmiss & _).
  exists v. split; [exact Hv |]. apply Hmiss. vm_compute. reflexivity.
Defined.

(** What one transition is made of. *)
Lemma transition_inv (program : program) (c c' : config) :
  transition program c = Ok (Some c') ->
  exists v tup,
    read c.1 = Ok v /\
    program !! (c.2, v) = Some tup /\
    dispatch tup c.1 = Ok c'.1 /\
    c'.2 = new_state tup.
Proof.
  unfold transition.
  destruct (read c.1) as [v|e] eqn:Hr; simpl; [| discriminate].
  destruct (program !! (c.2, v)) as [tup|] eqn:Hp; [| discriminate].
  destruct (dispatch tup c.1) as [tm'|e] eqn:Hd; simpl; [| discriminate].
  intros [= <-]. exists v, tup. repeat split; assumption || reflexivity.
Qed.

(** A property that every transition keeps holds at the end of a chain. *)
Lemma chain_end_invariant (program : program) (P : TuringMachine -> Prop) :
  (forall c c', P c.1 -> transition program c = Ok (Some c') -> P c'.1) ->
  forall cs c, P c.1 -> chain program c cs -> P (chain_end c cs).1.
Proof.
  intros Hstep. induction cs as [|c' cs IH]; intros c Hc Hch; [exact Hc |].
  destruct Hch as [Ht Hch]. simpl. apply IH; [| exact Hch].
  exact (Hstep c c' Hc Ht).
Qed.

Lemma run_chain_end (tm : TuringMachine) (program : program) (step_limit : Z)
    (debug : bool) :
  exists cs,
    chain program (tm, 1) cs /\
    (chain_end (tm, 1) cs).1 = self (run tm program step_limit debug).1 /\
    step (run tm program step_limit debug).1 = len cs.
Proof.
  destruct (run tm program step_limit debug) as [f c] eqn:Hrun.
  apply loop_chain in Hrun as (cs & Hch & Hend & Hst & _). simpl in *.
  exists cs. rewrite Hend. repeat split; [exact Hch | lia].
Qed.

(** X12.  A table without write entries only ever adds blank cells: after a
    run of a table none of whose actions is ["W"], the cells the machine
    started with are all still there, in order and unchanged, between cells
    holding 0. *)
Theorem X12_moves_keep_the_cells (tm : TuringMachine) (program : program)
    (step_limit : Z) (debug : bool) :
  (forall k tup, program !! k = Some tup -> action tup <> "W"%string) ->
  exists front behind,
    _cells (runProgram tm program step_limit debug).1 =
      front ++ _cells tm ++ behind /\
    all_zero front /\
    all_zero behind.
Proof.
  intros Hnow.
  destruct (run_chain_end tm program step_limit debug) as (cs & Hch & Hend & _).
  unfold runProgram. simpl. rewrite <- Hend.
  apply (chain_end_invariant program
           (fun t => exists front behind,
              _cells t = front ++ _cells tm ++ behind /\
              all_zero front /\ all_zero behind)); [| | exact Hch].
  - intros c c' (front & behind & Hc & Hf & Hb) Ht.
    destruct (transition_inv _ _ _ Ht) as (v & tup & _ & Hp & Hd & _).
    pose proof (Hnow _ _ Hp) as HW. apply String.eqb_neq in HW.
    unfold dispatch in Hd. rewrite HW in Hd.
    assert (c'.1 = c.1 \/ exists num, c'.1 = _move num c.1) as [-> | [num ->]].
    { destruct (String.eqb (action tup) "R");
        [injection Hd as <-; right; eexists; reflexivity |].
      destruct (String.eqb (action tup) "L");
        [injection Hd as <-; right; eexists; reflexivity |].
      injection Hd as <-. left. reflexivity. }
    + eauto.
    + destruct (_move_shape num c.1) as (behind' & -> & Hb' & _).
      exists (py_repeat 0 (prepended num c.1) ++ front), (behind ++ behind').
      rewrite Hc, <- !app_assoc. split; [reflexivity |].
      split; apply Forall_app; split; try assumption.
      apply all_zero_py_repeat.
  - exists [], []. simpl. rewrite app_nil_r.
    repeat split; constructor.
Qed.

Lemma X12_moves_keep_the_cells_witness :
  exists front behind,
    _cells (runProgram (__init__ [0; 5] 0 1) forever_right 6 false).1 =
      front ++ [0; 5] ++ behind /\
    all_zero front /\
    all_zero behind.
Proof.
  apply (X12_moves_keep_the_cells (__init__ [0; 5] 0 1) forever_right 6 false).
  intros k tup Hk. unfold forever_right in Hk.
  apply lookup_singleton_Some in Hk as [_ <-]. discriminate.
Defined.

(** X13.  A table without move entries touches one cell: after a run of a
    table none of whose actions is ["R"] or ["L"], the head and the number of
    cells are what they were, and every cell but the one under the head holds
    what it held. *)
Theorem X13_writes_stay_in_place (tm : TuringMachine) (program : program)
    (step_limit : Z) (debug : bool) :
  (forall k tup,
     program !! k = Some tup ->
     action tup <> "R"%string /\ action tup <> "L"%string) ->
  _head (runProgram tm program step_limit debug).1 = _head tm /\
  length (_cells (runProgram tm program step_limit debug).1) =
    length (_cells tm) /\
  (forall (k i : nat),
     py_index (_cells tm) (_head tm) = Ok k ->
     i <> k ->
     _cells (runProgram tm program step_limit debug).1 !! i = _cells tm !! i).
Proof.
  intros Hnom.
  destruct (run_chain_end tm program step_limit debug) as (cs & Hch & Hend & _).
  unfold runProgram. simpl. rewrite <- Hend.
  apply (chain_end_invariant program
           (fun t => _head t = _head tm /\
                     length (_cells t) = length (_cells tm) /\
                     forall k i : nat,
                       py_index (_cells tm) (_head tm) = Ok k ->
                       i <> k -> _cells t !! i = _cells tm !! i));
    [| | exact Hch].
  - intros c c' (Hh & Hl & Hc) Ht.
    destruct (transition_inv _ _ _ Ht) as (v & tup & _ & Hp & Hd & _).
    destruct (Hnom _ _ Hp) as [HR HL].
    apply String.eqb_neq in HR, HL.
    unfold dispatch in Hd. rewrite HR, HL in Hd.
    destruct (String.eqb (action tup) "W");
      [| injection Hd as <-; auto].
    unfold write in Hd.
    destruct (py_index (_cells c.1) (_head c.1)) as [j|e] eqn:Hj; simpl in Hd;
      [| discriminate].
    injection Hd as <-. simpl. split; [exact Hh |].
    split; [rewrite length_insert; exact Hl |].
    intros k i Hk Hi.
    assert (j = k) as ->.
    { unfold py_index, len in Hj, Hk. rewrite Hh, Hl in Hj. congruence. }
    rewrite list_lookup_insert_ne by congruence. apply (Hc k i Hk Hi).
  - split; [reflexivity |]. split; reflexivity.
Qed.

Lemma X13_writes_stay_in_place_witness :
  _head (runProgram (__init__ [0; 5] 0 1)
           {[ (1, 0) := ("W"%string, 3, 1) ]} 6 false).1 = 0.
Proof.
  apply (X13_writes_stay_in_place (__init__ [0; 5] 0 1)
           {[ (1, 0) := ("W"%string, 3, 1) ]} 6 false).
  intros k tup Hk. apply lookup_singleton_Some in Hk as [_ <-].
  split; discriminate.
Defined.

Lemma _move_unit_growth (num : Z) (tm : TuringMachine) :
  head_in_bounds tm ->
  -1 <= num <= 1 ->
  len (_cells (_move num tm)) <= len (_cells tm) + 1.
Proof.
  intros [Hlo Hhi] Hnum.
  destruct (_move_cases num tm) as [[H ->] | [[H ->] | [H ->]]]; simpl in *;
    rewrite ?len_app, ?len_py_repeat; lia.
Qed.

(** The cells grow by at most one per transition when every move entry of the
    table asks for at most one cell. *)
Lemma chain_unit_growth (program : program) :
  (forall k tup,
     program !! k = Some tup ->
     action tup = "R"%string \/ action tup = "L"%string ->
     -1 <= parameter tup <= 1) ->
  forall cs c,
    head_in_bounds c.1 ->
    chain program c cs ->
    len (_cells (chain_end c cs).1) <= len (_cells c.1) + len cs.
Proof.
  intros Hunit. induction cs as [|c' cs IH]; intros c Hb Hch.
  - simpl. unfold len at 3. simpl. lia.
  - destruct Hch as [Ht Hch]. simpl.
    destruct (transition_inv _ _ _ Ht) as (v & tup & _ & Hp & Hd & _).
    assert (head_in_bounds c'.1 /\
            len (_cells c'.1) <= len (_cells c.1) + 1) as [Hb' Hlen].
    { unfold dispatch in Hd.
      destruct (String.eqb_spec (action tup) "R") as [HR | _].
      - injection Hd as <-. split; [apply _move_in_bounds |].
        apply _move_unit_growth; [exact Hb | apply (Hunit _ _ Hp); tauto].
      - destruct (String.eqb_spec (action tup) "L") as [HL | _].
        + injection Hd as <-. split; [apply _move_in_bounds |].
          pose proof (Hunit _ _ Hp (or_intror HL)).
          apply _move_unit_growth; [exact Hb | lia].
        + destruct (String.eqb (action tup) "W").
          * pose proof (write_preserves_bounds _ _ _ Hb Hd).
            apply write_Ok in Hd as [_ ->]. split; [assumption | lia].
          * injection Hd as <-. split; [exact Hb | lia]. }
    specialize (IH c' Hb' Hch).
    replace (len (c' :: cs)) with (len cs + 1)
      by (unfold len; simpl; lia).
    lia.
Qed.

(** X14.  When every move entry of the table moves by at most one cell
    (parameter -1, 0 or 1), a run from a head inside the window materialises
    at most one cell per executed transition: the final number of cells is at
    most the initial number plus the step count. *)
Theorem X14_one_cell_per_step (tm : TuringMachine) (program : program)
    (step_limit : Z) (debug : bool) :
  (forall k tup,
     program !! k = Some tup ->
     action tup = "R"%string \/ action tup = "L"%string ->
     -1 <= parameter tup <= 1) ->
  head_in_bounds tm ->
  len (_cells (runProgram tm program step_limit debug).1) <=
    len (_cells tm) + step (run tm program step_limit debug).1.
Proof.
  intros Hunit Hb.
  destruct (run_chain_end tm program step_limit debug) as (cs & Hch & Hend & Hst).
  unfold runProgram. simpl. rewrite <- Hend, Hst.
  apply (chain_unit_growth program Hunit cs (tm, 1) Hb Hch).
Qed.

Lemma X14_one_cell_per_step_witness :
  len (_cells (runProgram (__init__ [0] 0 1) forever_right 4 false).1) <=
    len (_cells (__init__ [0] 0 1)) +
    step (run (__init__ [0] 0 1) forever_right 4 false).1.
Proof.
  apply (X14_one_cell_per_step (__init__ [0] 0 1) forever_right 4 false).
  - intros k tup Hk _. unfold forever_right in Hk.
    apply lookup_singleton_Some in Hk as [_ <-].
    unfold parameter. simpl. lia.
  - unfold head_in_bounds, len. simpl. lia.
Defined.

(** ** Further properties of the parser *)

Section ParserErrors.

Variable int : string -> result Z.

Lemma instruction_four (r0 r1 t r3 : string) (rest : list string) :
  instruction int (r0 :: r1 :: t :: r3 :: rest) =
    (nxt <-! int r3;
     cur <-! int r0;
     val <-! int r1;
     Ok ((cur, val),
         (if String.eqb t "R" || String.eqb t "L" then t else "W"%string,
          if String.eqb t "0" then 0 else 1,
          nxt))).
Proof. reflexivity. Qed.

Lemma instruction_short (r : list string) :
  (length r < 4)%nat -> instruction int r = Raise IndexError.
Proof.
  intros Hr. destruct r as [|r0 [|r1 [|t [|r3 rest]]]]; try reflexivity.
  simpl in Hr. lia.
Qed.

Lemma instruction_parses (r : list string) :
  r <> [] ->
  (exists kv, instruction int r = Ok kv) <-> row_parses int r.
Proof.
  intros Hne. split.
  - intros [kv Hkv]. right.
    destruct r as [|r0 [|r1 [|t [|r3 rest]]]]; try discriminate.
    rewrite instruction_four in Hkv.
    destruct (int r3) as [nxt|] eqn:H3; [| discriminate].
    destruct (int r0) as [cur|] eqn:H0; [| discriminate].
    destruct (int r1) as [val|] eqn:H1; [| discriminate].
    exists r0, r1, t, r3, rest, cur, val, nxt. repeat split; assumption.
  - intros [-> | (r0 & r1 & t & r3 & rest & cur & val & nxt & -> & H0 & H1 & H3)];
      [congruence |].
    rewrite instruction_four, H3, H0, H1. simpl. eauto.
Qed.

Lemma instruction_entry (r : list string) (kv : Z * Z * entry) :
  instruction int r = Ok kv -> parsed_entry kv.2.
Proof.
  destruct r as [|r0 [|r1 [|t [|r3 rest]]]]; try discriminate.
  rewrite instruction_four.
  destruct (int r3) as [nxt|]; [| discriminate].
  destruct (int r0) as [cur|]; [| discriminate].
  destruct (int r1) as [val|]; [| discriminate].
  intros [= <-]. unfold parsed_entry, action, parameter. simpl.
  destruct (String.eqb_spec t "R") as [-> | HR]; simpl; [tauto |].
  destruct (String.eqb_spec t "L") as [-> | HL]; simpl; [tauto |].
  destruct (String.eqb t "0"); tauto.
Qed.

Lemma read_rows_cons (r : list string) (rows : list (list string))
    (prog : program) :
  read_rows int (r :: rows) prog =
    match r with
    | [] => read_rows int rows prog
    | _ => kv <-! instruction int r; read_rows int rows (<[kv.1 := kv.2]> prog)
    end.
Proof. destruct r; reflexivity. Qed.

Lemma read_rows_parses (rows : list (list string)) (prog : program) :
  (exists prog', read_rows int rows prog = Ok prog') <->
  Forall (row_parses int) rows.
Proof.
  revert prog. induction rows as [|r rows IH]; intros prog.
  - split; [constructor | simpl; eauto].
  - rewrite read_rows_cons, Forall_cons. destruct r as [|f fs].
    + rewrite IH. split; [intros H; split; [left; reflexivity | exact H] | tauto].
    + rewrite <- (instruction_parses (f :: fs)) by discriminate.
      destruct (instruction int (f :: fs)) as [kv|e]; simpl.
      * rewrite IH. split; [intros H; split; [eauto | exact H] | tauto].
      * split; [intros [? ?]; discriminate | intros [[? ?] _]; discriminate].
Qed.

Lemma read_rows_app (rows1 rows2 : list (list string)) (prog : program) :
  read_rows int (rows1 ++ rows2) prog =
    (prog1 <-! read_rows int rows1 prog; read_rows int rows2 prog1).
Proof.
  revert prog. induction rows1 as [|r rows1 IH]; intros prog; [reflexivity |].
  change ((r :: rows1) ++ rows2) with (r :: (rows1 ++ rows2)).
  rewrite !read_rows_cons. destruct r as [|f fs]; [apply IH |].
  destruct (instruction int (f :: fs)) as [kv|e]; simpl; [apply IH | reflexivity].
Qed.

Lemma read_rows_entries (rows : list (list string)) (prog prog' : program) :
  (forall k e, prog !! k = Some e -> parsed_entry e) ->
  read_rows int rows prog = Ok prog' ->
  forall k e, prog' !! k = Some e -> parsed_entry e.
Proof.
  revert prog. induction rows as [|r rows IH]; intros prog Hprog.
  - intros [= <-]. exact Hprog.
  - rewrite read_rows_cons. destruct r as [|f fs]; [apply IH, Hprog |].
    destruct (instruction int (f :: fs)) as [kv|e] eqn:Hkv; simpl;
      [| discriminate].
    apply IH. intros k e Hk.
    destruct (decide (kv.1 = k)) as [<- | Hne].
    + rewrite lookup_insert_eq in Hk. injection Hk as <-.
      exact (instruction_entry _ _ Hkv).
    + rewrite lookup_insert_ne in Hk by exact Hne. exact (Hprog _ _ Hk).
Qed.

Lemma instruction_canonical (r : list string) :
  instruction int (canonical_row r) = instruction int r.
Proof.
  destruct r as [|r0 [|r1 [|t [|r3 rest]]]]; try reflexivity.
  unfold canonical_row. rewrite !instruction_four.
  destruct (int r3) as [nxt|]; [| reflexivity].
  destruct (int r0) as [cur|]; [| reflexivity].
  destruct (int r1) as [val|]; [| reflexivity].
  simpl. unfold canonical_token.
  destruct (String.eqb_spec t "R") as [-> | HR]; [reflexivity |].
  destruct (String.eqb_spec t "L") as [-> | HL]; [reflexivity |].
  destruct (String.eqb_spec t "0") as [-> | H0]; reflexivity.
Qed.

End ParserErrors.

(** X15.  The parser returns a table exactly when every row is blank or has
    at least four fields of which [int] accepts the first, the second and the
    fourth; in every other case it raises and no table is returned. *)
Theorem X15_parser_succeeds_iff (int : string -> result Z)
    (rows : list (list string)) :
  (exists prog, readMinimalProgram int rows = Ok prog) <->
  Forall (row_parses int) rows.
Proof. apply read_rows_parses. Qed.

(** X16.  The first row the parser does not get through decides the error:
    after rows it gets through, a row of one, two or three fields raises
    [IndexError], whatever its fields and whatever follows; a row of four or
    more fields raises what [int] raises on its fourth field, which is read
    before the first and the second. *)
Theorem X16_parser_errors (int : string -> result Z)
    (good rest : list (list string)) :
  Forall (row_parses int) good ->
  (forall r : list string,
     (0 < length r < 4)%nat ->
     readMinimalProgram int (good ++ r :: rest) = Raise IndexError) /\
  (forall (r0 r1 t r3 : string) (extra : list string) (e : exn),
     int r3 = Raise e ->
     readMinimalProgram int (good ++ (r0 :: r1 :: t :: r3 :: extra) :: rest) =
       Raise e).
Proof.
  intros Hgood. unfold readMinimalProgram.
  destruct (proj2 (read_rows_parses int good ∅) Hgood) as [prog Hprog].
  split.
  - intros r [Hpos Hshort]. rewrite read_rows_app, Hprog. cbn [bind].
    rewrite read_rows_cons. destruct r as [|f fs]; [simpl in Hpos; lia |].
    rewrite instruction_short by exact Hshort. reflexivity.
  - intros r0 r1 t r3 extra e He. rewrite read_rows_app, Hprog. cbn [bind].
    rewrite read_rows_cons, instruction_four, He. reflexivity.
Qed.

Lemma X16_parser_errors_witness :
  readMinimalProgram int_decimal
    [["1"; "0"; "R"; "1"]; []; ["1"; "1"; "L"]; ["x"]]%string =
    Raise IndexError /\
  readMinimalProgram int_decimal
    [["1"; "0"; "R"; "1"]; []; ["a"; "b"; "L"; "2x"]]%string =
    Raise ValueError.
Proof.
  assert (Forall (row_parses int_decimal) [["1"; "0"; "R"; "1"]; []]%string)
    as Hgood.
  { apply Forall_cons. split; [| apply Forall_cons; split; [left; reflexivity | constructor]].
    right. exists "1"%string, "0"%string, "R"%string, "1"%string, [], 1, 0, 1.
    repeat split; reflexivity. }
  destruct (X16_parser_errors int_decimal [["1"; "0"; "R"; "1"]; []]%string
              [["x"]]%string Hgood) as [Hshort _].
  destruct (X16_parser_errors int_decimal [["1"; "0"; "R"; "1"]; []]%string
              [] Hgood) as [_ Hint].
  split.
  - apply (Hshort ["1"; "1"; "L"]%string). simpl. lia.
  - apply (Hint "a" "b" "L" "2x" [] ValueError)%string. reflexivity.
Defined.

(** X17.  Whatever the file holds, every entry of a table the parser returns
    has one of the three actions the interpreter knows, a move entry moves by
    exactly one cell and a write entry writes 0 or 1. *)
Theorem X17_parsed_entries (int : string -> result Z)
    (rows : list (list string)) (prog : program) (k : Z * Z) (e : entry) :
  readMinimalProgram int rows = Ok prog ->
  prog !! k = Some e ->
  (action e = "R"%string /\ parameter e = 1) \/
  (action e = "L"%string /\ parameter e = 1) \/
  (action e = "W"%string /\ (parameter e = 0 \/ parameter e = 1)).
Proof.
  intros Hread Hk.
  assert (forall k' e', (∅ : program) !! k' = Some e' -> parsed_entry e')
    as Hempty by (intros k' e' H; rewrite lookup_empty in H; discriminate).
  exact (read_rows_entries int rows ∅ prog Hempty Hread k e Hk).
Qed.

Lemma X17_parsed_entries_witness :
  (action ("W"%string, 1, 7) = "R"%string /\ parameter ("W"%string, 1, 7) = 1) \/
  (action ("W"%string, 1, 7) = "L"%string /\ parameter ("W"%string, 1, 7) = 1) \/
  (action ("W"%string, 1, 7) = "W"%string /\
   (parameter ("W"%string, 1, 7) = 0 \/ parameter ("W"%string, 1, 7) = 1)).
Proof.
  apply (X17_parsed_entries int_decimal [["3"; "4"; "write"; "7"]]%string
           {[ (3, 4) := ("W"%string, 1, 7) ]} (3, 4) ("W"%string, 1, 7)).
  - reflexivity.
  - reflexivity.
Defined.

(** X18.  The parser looks at the first four fields of a row only, and reads
    every action field other than [R], [L] and [0] as [1]: replacing each row
    of four or more fields by its first four, with such an action field
    replaced by [1], changes neither the table returned nor the exception
    raised. *)
Theorem X18_parser_reads_four_fields (int : string -> result Z)
    (rows : list (list string)) :
  readMinimalProgram int (canonical_row <$> rows) =
    readMinimalProgram int rows.
Proof.
  unfold readMinimalProgram. generalize (∅ : program).
  induction rows as [|r rows IH]; intros prog; [reflexivity |].
  rewrite fmap_cons, !read_rows_cons.
  destruct r as [|f fs]; [apply IH |].
  assert (exists g gs, canonical_row (f :: fs) = g :: gs) as (g & gs & Hg)
    by (destruct fs as [|? [|? [|? ?]]]; eexists _, _; reflexivity).
  pose proof (instruction_canonical int (f :: fs)) as Hcan.
  rewrite Hg in *. rewrite Hcan.
  destruct (instruction int (f :: fs)); simpl; [apply IH | reflexivity].
Qed.

(** X19.  The parser and the interpreter fit together: a run of any table the
    parser returns, from a head inside the window, returns normally and
    materialises at most one cell per executed transition. *)
Theorem X19_parsed_program_run (int : string -> result Z)
    (rows : list (list string)) (prog : program) (tm : TuringMachine)
    (step_limit : Z) (debug : bool) :
  readMinimalProgram int rows = Ok prog ->
  head_in_bounds tm ->
  (run tm prog step_limit debug).2 = Returned /\
  len (_cells (runProgram tm prog step_limit debug).1) <=
    len (_cells tm) + step (run tm prog step_limit debug).1.
Proof.
  intros Hread Hb. split; [apply run_in_bounds, Hb |].
  destruct (run_chain_end tm prog step_limit debug) as (cs & Hch & Hend & Hst).
  unfold runProgram. simpl. rewrite <- Hend, Hst.
  apply (chain_unit_growth prog); [| exact Hb | exact Hch].
  intros k e Hk _.
  assert (forall k' e', (∅ : program) !! k' = Some e' -> parsed_entry e')
    as Hempty by (intros k' e' H; rewrite lookup_empty in H; discriminate).
  destruct (read_rows_entries int rows ∅ prog Hempty Hread k e Hk)
    as [[_ ->] | [[_ ->] | [_ [-> | ->]]]]; lia.
Qed.

Lemma X19_parsed_program_run_witness :
  (run (__init__ [0] 0 1) {[ (1, 0) := ("L"%string, 1, 1) ]} 5 false).2 =
    Returned /\
  len (_cells (runProgram (__init__ [0] 0 1)
                 {[ (1, 0) := ("L"%string, 1, 1) ]} 5 false).1) <=
    len (_cells (__init__ [0] 0 1)) +
    step (run (__init__ [0] 0 1) {[ (1, 0) := ("L"%string, 1, 1) ]} 5 false).1.
Proof.
  apply (X19_parsed_program_run int_decimal [["1"; "0"; "L"; "1"]]%string).
  - reflexivity.
  - unfold head_in_bounds, len. simpl. lia.
Defined.

(** ** Further properties of the unary tape *)

(** The loop appends the cells of each value, in order. *)
Lemma unary_loop_cells (iterable : list Z) (tape : list Z) :
  unary_loop iterable tape = tape ++ concat (unary_cells <$> iterable).
Proof.
  revert tape. induction iterable as [|val rest IH]; intros tape.
  - simpl. rewrite app_nil_r. reflexivity.
  - rewrite fmap_cons. cbn [unary_loop concat]. rewrite IH.
    unfold unary_cells. rewrite <- !app_assoc. reflexivity.
Qed.

Lemma generateUnaryMachine_cells (iterable : list Z) :
  _cells (generateUnaryMachine iterable) = concat (unary_cells <$> iterable).
Proof. unfold generateUnaryMachine. simpl. apply unary_loop_cells. Qed.

(** X20.  The unary tape of a concatenation is the concatenation of the unary
    tapes: the cells built from [l1 ++ l2] are the cells built from [l1]
    followed by the cells built from [l2], and the head is at index 0. *)
Theorem X20_unary_concatenation (l1 l2 : list Z) :
  _cells (generateUnaryMachine (l1 ++ l2)) =
    _cells (generateUnaryMachine l1) ++ _cells (generateUnaryMachine l2) /\
  _head (generateUnaryMachine (l1 ++ l2)) = 0.
Proof.
  split; [| reflexivity].
  rewrite !generateUnaryMachine_cells, fmap_app, concat_app. reflexivity.
Qed.

Lemma unary_cells_inj (a b : Z) (r1 r2 : list Z) :
  0 <= a -> 0 <= b ->
  unary_cells a ++ r1 = unary_cells b ++ r2 -> a = b /\ r1 = r2.
Proof.
  intros Ha Hb. unfold unary_cells, py_repeat.
  assert (forall n m : nat,
            (replicate n 1 ++ [0]) ++ r1 = (replicate m 1 ++ [0]) ++ r2 ->
            n = m /\ r1 = r2) as Hnat.
  { induction n as [|n IH]; intros [|m]; simpl; intros H.
    - injection H as ->. split; reflexivity.
    - discriminate.
    - discriminate.
    - injection H as H. destruct (IH m H) as [-> ->]. split; reflexivity. }
  intros H. destruct (Hnat _ _ H) as [Hn ->]. split; [lia | reflexivity].
Qed.

(** X21.  On non-negative values the unary tape determines its input: two
    sequences of non-negative integers with the same machine are equal. *)
Theorem X21_unary_injective (l1 l2 : list Z) :
  Forall (fun v => 0 <= v) l1 ->
  Forall (fun v => 0 <= v) l2 ->
  generateUnaryMachine l1 = generateUnaryMachine l2 ->
  l1 = l2.
Proof.
  intros H1 H2 Heq.
  assert (concat (unary_cells <$> l1) = concat (unary_cells <$> l2)) as Hc
    by (rewrite <- !generateUnaryMachine_cells, Heq; reflexivity).
  clear Heq. revert l2 H2 Hc.
  induction H1 as [|a l1 Ha _ IH]; intros l2 H2 Hc.
  - destruct H2 as [|b l2 _ _]; [reflexivity |].
    rewrite fmap_cons in Hc. unfold unary_cells in Hc.
    destruct (py_repeat 1 (b + 1)); discriminate.
  - destruct H2 as [|b l2 Hb H2].
    + rewrite fmap_cons in Hc. unfold unary_cells in Hc.
      destruct (py_repeat 1 (a + 1)); discriminate.
    + rewrite !fmap_cons in Hc. cbn [concat] in Hc.
      destruct (unary_cells_inj a b _ _ Ha Hb Hc) as [-> Hrest].
      f_equal. apply IH; assumption.
Qed.

Lemma X21_unary_injective_witness : [2; 0] = [2; 0].
Proof.
  apply X21_unary_injective; [| | reflexivity]; repeat constructor; lia.
Defined.

(** X22.  A value below -1 is encoded like -1, by the separator alone: the
    machine built from a sequence is the machine built from the sequence with
    every value raised to at least -1.  So sequences that differ only in such
    values get the same tape. *)
Theorem X22_unary_negative_values (iterable : list Z) :
  generateUnaryMachine iterable =
    generateUnaryMachine (Z.max (-1) <$> iterable) /\
  (forall v, v <= -1 -> unary_loop [v] [] = [0]).
Proof.
  split.
  - unfold generateUnaryMachine. f_equal.
    rewrite !unary_loop_cells. f_equal. f_equal.
    rewrite <- list_fmap_compose. apply list_fmap_ext.
    intros _ v _. unfold unary_cells, py_repeat. simpl. do 2 f_equal. lia.
  - intros v Hv. simpl. unfold py_repeat.
    replace (Z.to_nat (v + 1)) with 0%nat by lia. reflexivity.
Qed.

(** X23.  The number of cells of the unary tape: one separator per value, and
    [v + 1] ones for each value [v >= 0]. *)
Theorem X23_unary_length (iterable : list Z) :
  len (_cells (generateUnaryMachine iterable)) =
    sum_Z ((fun v => Z.max 0 (v + 1) + 1) <$> iterable) /\
  (Forall (fun v => 0 <= v) iterable ->
   len (_cells (generateUnaryMachine iterable)) =
     sum_Z iterable + 2 * len iterable).
Proof.
  rewrite generateUnaryMachine_cells.
  assert (len (concat (unary_cells <$> iterable)) =
          sum_Z ((fun v => Z.max 0 (v + 1) + 1) <$> iterable)) as Hlen.
  { induction iterable as [|v rest IH]; [reflexivity |].
    rewrite !fmap_cons. cbn [concat sum_Z foldr]. fold (sum_Z).
    rewrite len_app, IH. unfold unary_cells.
    rewrite len_app, len_py_repeat. unfold sum_Z, len. simpl. lia. }
  split; [exact Hlen |]. rewrite Hlen. clear Hlen.
  induction 1 as [|v rest Hv _ IH]; [reflexivity |].
  rewrite fmap_cons. unfold sum_Z in *. cbn [foldr]. rewrite IH.
  unfold len. simpl. lia.
Qed.

Lemma X23_unary_length_witness :
  len (_cells (generateUnaryMachine [2; 0; 1])) =
    sum_Z [2; 0; 1] + 2 * len [2; 0; 1].
Proof.
  apply (proj2 (X23_unary_length [2; 0; 1])). repeat constructor; lia.
Defined.

(** X24.  The machine built from the empty sequence has no cell, its head 0
    is outside the window and [read] raises; the machine built from any other
    sequence has its head inside the window, and it reads 1 when the first
    value is non-negative and 0 otherwise. *)
Theorem X24_unary_first_read (iterable : list Z) :
  (head_in_bounds (generateUnaryMachine iterable) <-> iterable <> []) /\
  (iterable = [] ->
   read (generateUnaryMachine iterable) = Raise IndexError) /\
  (forall v rest,
     iterable = v :: rest ->
     read (generateUnaryMachine iterable) = Ok (if 0 <=? v then 1 else 0)).
Proof.
  split; [| split].
  - unfold head_in_bounds. rewrite generateUnaryMachine_cells. simpl.
    destruct iterable as [|v rest].
    + unfold len. simpl. split; [lia | congruence].
    + rewrite fmap_cons. cbn [concat].
      set (tail := concat (unary_cells <$> rest)).
      unfold unary_cells. rewrite !len_app.
      pose proof (len_nonneg (py_repeat 1 (v + 1))).
      pose proof (len_nonneg tail).
      unfold len at 2. simpl. split; [congruence | lia].
  - intros ->. reflexivity.
  - intros v rest ->. unfold read.
    assert (exists c cs, _cells (generateUnaryMachine (v :: rest)) = c :: cs /\
                         c = if 0 <=? v then 1 else 0) as (c & cs & Hc & ->).
    { rewrite generateUnaryMachine_cells, fmap_cons. cbn [concat].
      unfold unary_cells, py_repeat.
      destruct (Z.leb_spec 0 v).
      - replace (Z.to_nat (v + 1)) with (S (Z.to_nat v)) by lia.
        simpl. eauto.
      - replace (Z.to_nat (v + 1)) with 0%nat by lia. simpl. eauto. }
    rewrite Hc. reflexivity.
Qed.

Lemma X24_unary_first_read_witness :
  read (generateUnaryMachine []) = Raise IndexError /\
  read (generateUnaryMachine [3; 1]) = Ok 1.
Proof.
  destruct (X24_unary_first_read []) as (_ & Hempty & _).
  destruct (X24_unary_first_read [3; 1]) as (_ & _ & Hfirst).
  split; [apply Hempty; reflexivity | apply (Hfirst 3 [1]); reflexivity].
Defined.

(** ** Properties of the rendering *)






Section StrFacts.

Variable str : Z -> string.




End StrFacts.





(** ** Properties of the log *)

Lemma dispatch_len (tup : entry) (tm tm' : TuringMachine) :
  dispatch tup tm = Ok tm' -> len (_cells tm) <= len (_cells tm').
Proof.
  unfold dispatch.
  destruct (String.eqb (action tup) "R");
    [intros [= <-]; apply (do_move_len (MoveRight (parameter tup))) |].
  destruct (String.eqb (action tup) "L");
    [intros [= <-]; apply (do_move_len (MoveLeft (parameter tup))) |].
  destruct (String.eqb (action tup) "W").
  - intros Hw. apply write_Ok in Hw as [_ ->]. lia.
  - intros [= <-]. lia.
Qed.

Lemma chain_snapshots (program : program) (cs : list config) (c : config) :
  chain program c cs ->
  (head_in_bounds c.1 ->
   Forall (fun s => 0 <= snap_head s < len (snap_tape s))
     (snapshot_of <$> c :: cs)) /\
  (forall (i : nat) (s s' : snapshot),
     (snapshot_of <$> c :: cs) !! i = Some s ->
     (snapshot_of <$> c :: cs) !! S i = Some s' ->
     len (snap_tape s) <= len (snap_tape s')) /\
  last (snapshot_of <$> c :: cs) = Some (snapshot_of (chain_end c cs)).
Proof.
  revert c. induction cs as [|c' cs IH]; intros c Hch.
  - split; [intros Hb; simpl; apply Forall_cons; split;
              [exact Hb | apply Forall_nil_2] |].
    split; [intros i s s' _ Hs'; destruct i; discriminate | reflexivity].
  - destruct Hch as [Ht Hch].
    destruct (IH c' Hch) as (Hbounds & Hmono & Hlast).
    destruct (transition_inv _ _ _ Ht) as (v & tup & _ & _ & Hd & _).
    split; [| split].
    + intros Hb. rewrite fmap_cons. constructor; [exact Hb |].
      apply Hbounds.
      destruct (dispatch_in_bounds tup c.1 Hb) as (tm' & Hd' & Hb').
      congruence.
    + intros [|i] s s' Hs Hs'.
      * injection Hs as <-. injection Hs' as <-. simpl.
        exact (dispatch_len _ _ _ Hd).
      * exact (Hmono i s s' Hs Hs').
    + rewrite fmap_cons, last_cons, Hlast. reflexivity.
Qed.

(** X27.  What the log of a traced run holds: from one snapshot to the next
    the recorded tape never gets shorter; the last snapshot is the state and
    the machine the run ends with; and when the run starts with the head
    inside the window, the head recorded in every snapshot is a valid index
    of the tape recorded with it. *)
Theorem X27_log_snapshots (tm : TuringMachine) (program : program)
    (step_limit : Z) (f : frame) (c : completion) :
  run tm program step_limit true = (f, c) ->
  (forall (i : nat) (s s' : snapshot),
     log f !! i = Some s ->
     log f !! S i = Some s' ->
     len (snap_tape s) <= len (snap_tape s')) /\
  last (log f) = Some (take_snapshot (state f) (self f)) /\
  (head_in_bounds tm ->
   Forall (fun s => 0 <= snap_head s < len (snap_tape s)) (log f)).
Proof.
  intros Hrun.
  apply loop_chain in Hrun as (cs & Hch & Hend & _ & Hlog).
  simpl in Hch, Hend, Hlog.
  destruct (chain_snapshots program cs (tm, 1) Hch) as (Hbounds & Hmono & Hlast).
  change (log f = snapshot_of <$> (tm, 1) :: cs) in Hlog.
  rewrite Hlog. split; [exact Hmono |]. split; [| exact Hbounds].
  etransitivity; [exact Hlast |]. rewrite Hend. reflexivity.
Qed.

Lemma X27_log_snapshots_witness :
  Forall (fun s => 0 <= snap_head s < len (snap_tape s))
    (log (run (__init__ [0] 0 1) forever_right 3 true).1).
Proof.
  apply (X27_log_snapshots (__init__ [0] 0 1) forever_right 3
           (run (__init__ [0] 0 1) forever_right 3 true).1
           (run (__init__ [0] 0 1) forever_right 3 true).2).
  - reflexivity.
  - unfold head_in_bounds, len. simpl. lia.
Defined.

(** ** Further instances *)

Lemma X15_parser_succeeds_iff_witness :
  exists prog,
    readMinimalProgram int_decimal [["2"; "1"; "0"; "3"; "spare"]; []]%string =
      Ok prog.
Proof.
  apply (proj2 (X15_parser_succeeds_iff int_decimal
                  [["2"; "1"; "0"; "3"; "spare"]; []]%string)).
  apply Forall_cons. split; [| apply Forall_cons; split; [left; reflexivity | constructor]].
  right.
  exists "2"%string, "1"%string, "0"%string, "3"%string, ["spare"%string], 2, 1, 3.
  repeat split; reflexivity.
Defined.

Lemma X22_unary_negative_values_witness : unary_loop [-4] [] = [0].
Proof.
  apply (proj2 (X22_unary_negative_values [-4]) (-4)). lia.
Defined.
